(** * PDFoundry: the PDF byte cache ([IDBHelper] and [PDFCache])

    A shallow embedding of the cache of PDFoundry: the [IDBHelper] class, a
    promise wrapper around two IndexedDB object stores, and the static class
    [PDFCache], which keeps PDF bytes in the store [Cache], one [CacheMeta]
    record per key in the store [Meta], and evicts the least recently accessed
    entries in [prune].

    Conventions of the embedding.
    - The code is run in program order: every [await] is followed to its
      settlement before the next statement, so a promise is modelled by the
      way it settles ([outcome]) and by the world it leaves behind.
    - JavaScript numbers that hold byte counts, settings and epoch
      milliseconds are integers ([Z]); on those [parseInt] is the identity and
      [Date.parse (d.toISOString ())] is the epoch time of [d], so
      [dateAccessed] is kept as epoch milliseconds.
    - The object stores are typed as the TypeScript signatures of [setCache]
      and [setMeta] type them: [Cache] holds [Uint8Array]s, [Meta] holds
      [CacheMeta] records.  Keys are strings, as [PDFCache] passes them; a
      [string] holds the UTF-8 bytes of the key.
    - The code is given twice.  [IDBHelper] and [PDFCache] are the code over
      a backend that does what it is asked: a request that is issued
      completes, and [fetch] answers with a response.  The failures that the
      code itself tests for are there: a helper whose [_db] is still
      undefined, a key that has a record already, a response that is not ok
      or has no bytes.  [Unreliable.IDBHelper] and [Unreliable.PDFCache] are
      the same code over a backend in which every request of IndexedDB, the
      fetch and the reading of the body can fail; where none fails they are
      the code of the first part (lemmas [del_reliable] to
      [preload_reliable]). *)

From Stdlib Require Import ZArith Lia.
From stdpp Require Import gmap strings list fin_maps sorting.

Open Scope Z_scope.

(** ** Values and errors *)

(** The two ways JavaScript has of saying "no value", and a value. *)
Inductive js (A : Type) : Type :=
  | undefined
  | null
  | val (a : A).
Arguments undefined {A}.
Arguments null {A}.
Arguments val {A} a.

(** [CacheMeta]: the size in bytes and the last access. *)
Record CacheMeta : Type := mkMeta {
  size : Z;
  dateAccessed : Z;
}.

(** [PDFCache.CACHE] and [PDFCache.META], the two object stores. *)
Inductive storeName : Type := CACHE | META.

Definition valueOf (s : storeName) : Type :=
  match s with
  | CACHE => list Byte.byte
  | META => CacheMeta
  end.

Record Database : Type := mkDatabase {
  Cache : gmap string (list Byte.byte);
  Meta : gmap string CacheMeta;
}.

Definition objectStore (s : storeName) (db : Database) : gmap string (valueOf s) :=
  match s with
  | CACHE => Cache db
  | META => Meta db
  end.

Definition withStore (s : storeName) (db : Database) : gmap string (valueOf s) → Database :=
  match s with
  | CACHE => λ m, mkDatabase m (Meta db)
  | META => λ m, mkDatabase (Cache db) m
  end.

(** What can be thrown or passed to [reject]. *)
Inductive error : Type :=
  | CacheError_not_initialized (s : storeName)
  | CacheError_key_exists (s : storeName) (key : string)
  | TypeError
  | DOMException
  | Fetch_failed.

(** The answer of [fetch]: [response.ok] and the bytes of the body. *)
Record Response : Type := mkResponse {
  ok : bool;
  arrayBuffer : list Byte.byte;
}.

(** ** The world the code runs in

    [_db] is the field of the one [IDBHelper] ([None] while it is still
    [undefined], before [open] has succeeded); [CacheSize] is the setting
    that [game.settings.get] returns; [clock] gives the successive readings
    of [new Date ()] and [ticks] counts the readings taken so far; [network]
    is what [fetch] answers and [fetched] lists the keys fetched, oldest
    first. *)
Record World : Type := mkWorld {
  _db : option Database;
  CacheSize : Z;
  clock : nat → Z;
  ticks : nat;
  network : string → Response;
  fetched : list string;
}.

Definition with_db (o : option Database) (w : World) : World :=
  mkWorld o (CacheSize w) (clock w) (ticks w) (network w) (fetched w).

Definition with_CacheSize (c : Z) (w : World) : World :=
  mkWorld (_db w) c (clock w) (ticks w) (network w) (fetched w).

Definition with_network (n : string → Response) (w : World) : World :=
  mkWorld (_db w) (CacheSize w) (clock w) (ticks w) n (fetched w).

(** ** Promises in program order

    A promise resolves, rejects, or never settles because the error was
    thrown where no promise catches it (inside an event handler, or inside
    an [async] executor): the error is then reported as uncaught and whoever
    awaits the promise waits for ever. *)
Inductive outcome (A : Type) : Type :=
  | Resolved (a : A)
  | Rejected (e : error)
  | Unsettled (e : error).
Arguments Resolved {A} a.
Arguments Rejected {A} e.
Arguments Unsettled {A} e.

Definition M (A : Type) : Type := World → outcome A * World.

#[global] Instance M_ret : MRet M := λ A a w, (Resolved a, w).

(** [await m] followed by [k]. *)
#[global] Instance M_bind : MBind M := λ A B k m w,
  match m w with
  | (Resolved a, w') => k a w'
  | (Rejected e, w') => (Rejected e, w')
  | (Unsettled e, w') => (Unsettled e, w')
  end.

Definition throw {A : Type} (e : error) : M A := λ w, (Rejected e, w).

(** [try { m } catch (error) { h error }]. *)
Definition try_catch {A : Type} (m : M A) (h : error → M A) : M A := λ w,
  match m w with
  | (Rejected e, w') => h e w'
  | r => r
  end.

(** The world after one more reading of the clock. *)
Definition tick (w : World) : World :=
  mkWorld (_db w) (CacheSize w) (clock w) (S (ticks w)) (network w) (fetched w).

(** The world after one more fetch. *)
Definition note_fetch (key : string) (w : World) : World :=
  mkWorld (_db w) (CacheSize w) (clock w) (ticks w) (network w) (fetched w ++ [key]).

(** The user sets [CacheSize] to [c]. *)
Definition configure (c : Z) : M unit := λ w, (Resolved tt, with_CacheSize c w).

(** [new Date ().toISOString ()]. *)
Definition Date_now : M Z := λ w, (Resolved (clock w (ticks w)), tick w).

(** [await fetch (key)], on a network that answers; [Unreliable.fetch] is
    the fetch that can reject. *)
Definition fetch (key : string) : M Response := λ w,
  (Resolved (network w key), note_fetch key w).

(** ** The order of the keys

    IndexedDB compares two string keys code unit by code unit, the code
    units being those of UTF-16.  A [string] holds the UTF-8 bytes of the
    key, as the string literals of Rocq do. *)

(** The UTF-16 code units of the text that [bytes] encodes in UTF-8: one
    unit for a sequence of one, two or three bytes, a pair of surrogates for
    a sequence of four.  A byte that opens no complete sequence stands for
    itself. *)
Fixpoint code_units (bytes : list N) : list N :=
  match bytes with
  | [] => []
  | b0 :: rest =>
      if (b0 <? 192)%N then b0 :: code_units rest
      else if (b0 <? 224)%N then
        match rest with
        | b1 :: rest1 => (b0 mod 32 * 64 + b1 mod 64)%N :: code_units rest1
        | _ => b0 :: code_units rest
        end
      else if (b0 <? 240)%N then
        match rest with
        | b1 :: b2 :: rest2 =>
            (b0 mod 16 * 4096 + b1 mod 64 * 64 + b2 mod 64)%N :: code_units rest2
        | _ => b0 :: code_units rest
        end
      else
        match rest with
        | b1 :: b2 :: b3 :: rest3 =>
            let c := (b0 mod 8 * 262144 + b1 mod 64 * 4096 + b2 mod 64 * 64 + b3 mod 64
                      - 65536)%N in
            (55296 + c / 1024)%N :: (56320 + c mod 1024)%N :: code_units rest3
        | _ => b0 :: code_units rest
        end
  end.

Definition key_units (key : string) : list N :=
  code_units (map Ascii.N_of_ascii (String.list_ascii_of_string key)).

(** The first array of units is not after the second. *)
Fixpoint units_le (a b : list N) : bool :=
  match a, b with
  | [], _ => true
  | _ :: _, [] => false
  | x :: a', y :: b' => (x <? y)%N || ((x =? y)%N && units_le a' b')
  end.

Definition key_le (a b : string) : Prop := Is_true (units_le (key_units a) (key_units b)).

(** ** [IDBHelper] *)
Module IDBHelper.

(** [store.getKey (key)]: the key when a record has it, else [undefined]. *)
Definition getKey {V : Type} (store : gmap string V) (key : string) : js string :=
  match store !! key with
  | Some _ => val key
  | None => undefined
  end.

(** The test [if (keyRequest.result)]: [undefined] and the empty string
    are falsy. *)
Definition truthy (r : js string) : bool :=
  match r with
  | val s => negb (String.eqb s EmptyString)
  | _ => false
  end.

(** [store.add (value, key)]: on a key that has a record the request
    fails with a ConstraintError and the transaction is aborted, so the
    store keeps what it had. *)
Definition add {V : Type} (store : gmap string V) (value : V) (key : string) : gmap string V :=
  match store !! key with
  | Some _ => store
  | None => <[key := value]> store
  end.

(** [del (key, storeName)]: [newTransaction] throws inside the [try] when
    [_db] is undefined.  The request itself completes here;
    [Unreliable.IDBHelper.del] has the path through [transaction.onerror]. *)
Definition del (key : string) (s : storeName) : M unit := λ w,
  match _db w with
  | None => (Rejected TypeError, w)
  | Some db =>
      (Resolved tt, with_db (Some (withStore s db (delete key (objectStore s db)))) w)
  end.

(** [set (key, value, storeName, force)].  On the two paths that call
    [store.add] the promise is resolved right after the request is made,
    whatever becomes of the request; the [throw] of the unforced path
    happens inside the [onsuccess] handler of [keyRequest]. *)
Definition set (key : string) (s : storeName) (value : valueOf s) (force : bool) : M unit := λ w,
  match _db w with
  | None => (Rejected (CacheError_not_initialized s), w)
  | Some db =>
      if truthy (getKey (objectStore s db) key) then
        if force then
          match del key s w with
          | (Resolved _, w') =>
              match _db w' with
              | Some db' =>
                  (Resolved tt, with_db (Some (withStore s db' (add (objectStore s db') value key))) w')
              | None => (Unsettled TypeError, w')
              end
          | (Rejected e, w') => (Unsettled e, w')
          | (Unsettled e, w') => (Unsettled e, w')
          end
        else (Unsettled (CacheError_key_exists s key), w)
      else
        (Resolved tt, with_db (Some (withStore s db (add (objectStore s db) value key))) w)
  end.

(** [get (key, storeName)]: resolves with [undefined] for a key that has
    no record.  The request itself completes here;
    [Unreliable.IDBHelper.get] has the path through [getRequest.onerror]. *)
Definition get (key : string) (s : storeName) : M (js (valueOf s)) := λ w,
  match _db w with
  | None => (Rejected (CacheError_not_initialized s), w)
  | Some db =>
      match objectStore s db !! key with
      | Some v => (Resolved (val v), w)
      | None => (Resolved undefined, w)
      end
  end.

(** [store.getAllKeys ()]: the keys come out of an object store in
    ascending order, compared by their UTF-16 code units. *)
Definition getAllKeys {V : Type} (store : gmap string V) : list string :=
  merge_sort key_le (map fst (map_to_list store)).

(** [keys (storeName)]. *)
Definition keys (s : storeName) : M (list string) := λ w,
  match _db w with
  | None => (Rejected TypeError, w)
  | Some db => (Resolved (getAllKeys (objectStore s db)), w)
  end.

(** [Promise.all (promises)]: resolved when every promise is, and settled
    as the first one that does not resolve. *)
Fixpoint Promise_all (promises : list (outcome unit)) : outcome unit :=
  match promises with
  | [] => Resolved tt
  | Resolved _ :: promises' => Promise_all promises'
  | Rejected e :: _ => Rejected e
  | Unsettled e :: _ => Unsettled e
  end.

(** The loop of [clr]: [promises.push (this.del (key, storeName))] for
    every key; each [del] is started whatever becomes of the others. *)
Fixpoint start_dels (keys : list string) (s : storeName) (w : World)
    : list (outcome unit) * World :=
  match keys with
  | [] => ([], w)
  | key :: keys' =>
      let '(promise, w1) := del key s w in
      let '(promises, w2) := start_dels keys' s w1 in
      (promise :: promises, w2)
  end.

(** [clr (storeName)]: [newTransaction] throws inside the [try] when [_db]
    is undefined; [Promise.all (promises).then (...)] has no handler for a
    rejection, which leaves the promise of [clr] unsettled. *)
Definition clr (s : storeName) : M unit := λ w,
  match _db w with
  | None => (Rejected TypeError, w)
  | Some db =>
      let '(promises, w') := start_dels (getAllKeys (objectStore s db)) s w in
      match Promise_all promises with
      | Resolved _ => (Resolved tt, w')
      | Rejected e => (Unsettled e, w')
      | Unsettled e => (Unsettled e, w')
      end
  end.

End IDBHelper.

(** ** [PDFCache] *)
Module PDFCache.

(** The getter [MAX_BYTES]: the setting, in mebibytes, times [2 ** 20]. *)
Definition MAX_BYTES (w : World) : Z := CacheSize w * 2 ^ 20.

(** [getMeta (key)]. *)
Definition getMeta (key : string) : M (js CacheMeta) :=
  try_catch (IDBHelper.get key META) (λ _, mret null).

(** [setMeta (key, meta)]. *)
Definition setMeta (key : string) (meta : CacheMeta) : M unit :=
  IDBHelper.set key META meta true.

(** [bytes.length], a TypeError when [bytes] is [undefined] or [null]. *)
Definition length_of (bytes : js (list Byte.byte)) : M Z :=
  match bytes with
  | val b => mret (Z.of_nat (length b))
  | _ => throw TypeError
  end.

(** [getCache (key)]. *)
Definition getCache (key : string) : M (js (list Byte.byte)) :=
  try_catch
    (bytes ← IDBHelper.get key CACHE;
     now ← Date_now;
     len ← length_of bytes;
     setMeta key {| dateAccessed := now; size := len |};;
     mret bytes)
    (λ _, mret null).

(** The first loop of [prune]: read the record of every key, add up the
    sizes and push the pair of the key and the record. *)
Fixpoint readMetas (keys : list string) (totalBytes : Z)
    (metas : list (string * CacheMeta)) : M (Z * list (string * CacheMeta)) :=
  match keys with
  | [] => mret (totalBytes, metas)
  | key :: keys' =>
      meta ← IDBHelper.get key META;
      match meta with
      | val m => readMetas keys' (totalBytes + size m) (metas ++ [(key, m)])
      | _ => throw TypeError
      end
  end.

(** [metas.sort ((a, b) => a.meta.dateAccessed - b.meta.dateAccessed)]:
    a stable sort, oldest access first. *)
Fixpoint insert_by_date (a : string * CacheMeta) (l : list (string * CacheMeta))
    : list (string * CacheMeta) :=
  match l with
  | [] => [a]
  | b :: l' =>
      if dateAccessed (snd a) <=? dateAccessed (snd b)
      then a :: b :: l'
      else b :: insert_by_date a l'
  end.

Definition sort_by_date (metas : list (string * CacheMeta)) : list (string * CacheMeta) :=
  foldr insert_by_date [] metas.

(** The second loop of [prune], from index [i] on: [metas] is what is
    left of the sorted array. *)
Fixpoint evict (metas : list (string * CacheMeta)) (totalBytes : Z) : M unit :=
  match metas with
  | [] => mret tt
  | next :: rest => λ w,
      if totalBytes <? MAX_BYTES w then (Resolved tt, w)
      else
        (IDBHelper.del (fst next) META;;
         IDBHelper.del (fst next) CACHE;;
         evict rest (totalBytes - size (snd next))) w
  end.

(** [prune ()]. *)
Definition prune : M unit :=
  keys ← IDBHelper.keys META;
  '(totalBytes, metas) ← readMetas keys 0 [];
  evict (sort_by_date metas) totalBytes.

(** [setCache (key, bytes)]. *)
Definition setCache (key : string) (bytes : list Byte.byte) : M unit :=
  now ← Date_now;
  let meta := {| dateAccessed := now; size := Z.of_nat (length bytes) |} in
  IDBHelper.set key CACHE bytes true;;
  setMeta key meta;;
  prune.

(** What the executor of [preload] does to its promise. *)
Inductive settle : Type :=
  | resolve
  | reject (e : error).

(** [new Promise (async (resolve, reject) => { ... })]: an error thrown
    inside the [async] executor rejects the promise of the executor, not
    the promise under construction. *)
Definition new_Promise_async (executor : M settle) : M unit := λ w,
  match executor w with
  | (Resolved resolve, w') => (Resolved tt, w')
  | (Resolved (reject e), w') => (Rejected e, w')
  | (Rejected e, w') => (Unsettled e, w')
  | (Unsettled e, w') => (Unsettled e, w')
  end.

(** [cachedBytes !== null && cachedBytes.byteLength > 0]. *)
Definition nonempty (cachedBytes : js (list Byte.byte)) : M bool :=
  match cachedBytes with
  | null => mret false
  | val b => mret (0 <? Z.of_nat (length b))
  | undefined => throw TypeError
  end.

(** [preload (key)]. *)
Definition preload (key : string) : M unit :=
  new_Promise_async
    (cachedBytes ← getCache key;
     hit ← nonempty cachedBytes;
     if hit : bool then mret resolve
     else
       response ← fetch key;
       if ok response then
         let fetchedBytes := arrayBuffer response in
         if 0 <? Z.of_nat (length fetchedBytes) then
           setCache key fetchedBytes;;
           mret resolve
         else mret (reject Fetch_failed)
       else mret (reject Fetch_failed)).

End PDFCache.

(** ** The same code over a backend that can fail

    Every request that the code makes of IndexedDB, and every promise it
    awaits from the network, can fail.  A request of IndexedDB that fails
    fires [error] on the request; the event goes up to the transaction,
    which is aborted and leaves the store as it was before the request, and
    it reaches the handler [transaction.onerror] where the code has set
    one.  [fetch] and [response.arrayBuffer] fail by rejecting. *)
Inductive operation : Type :=
  | store_getKey (s : storeName) (key : string)
  | store_add (s : storeName) (key : string)
  | store_get (s : storeName) (key : string)
  | store_delete (s : storeName) (key : string)
  | store_getAllKeys (s : storeName)
  | network_fetch (key : string)
  | response_arrayBuffer (key : string).

(** The requests that fail, given the world in which they are made. *)
Definition Faults : Type := operation → World → bool.

Module Unreliable.

Module IDBHelper.

(** [del (key, storeName)]: [transaction.onerror] rejects with the error
    of the request. *)
Definition del (β : Faults) (key : string) (s : storeName) : M unit := λ w,
  match _db w with
  | None => (Rejected TypeError, w)
  | Some db =>
      if β (store_delete s key) w then (Rejected DOMException, w)
      else (Resolved tt, with_db (Some (withStore s db (delete key (objectStore s db)))) w)
  end.

(** [set (key, value, storeName, force)].  [keyRequest] has no [onerror]
    of its own, so its failure rejects through [transaction.onerror].  The
    promise of [del] has a handler for its resolution only: when [del]
    rejects nothing settles the promise of [set].  A [store.add] that fails
    does so after [resolve] was called; the transaction of the forced path
    has no handler at all. *)
Definition set (β : Faults) (key : string) (s : storeName) (value : valueOf s) (force : bool)
    : M unit := λ w,
  match _db w with
  | None => (Rejected (CacheError_not_initialized s), w)
  | Some db =>
      if β (store_getKey s key) w then (Rejected DOMException, w)
      else if IDBHelper.truthy (IDBHelper.getKey (objectStore s db) key) then
        if force then
          match del β key s w with
          | (Resolved _, w') =>
              match _db w' with
              | Some db' =>
                  if β (store_add s key) w' then (Resolved tt, w')
                  else
                    (Resolved tt,
                     with_db (Some (withStore s db' (IDBHelper.add (objectStore s db') value key)))
                       w')
              | None => (Unsettled TypeError, w')
              end
          | (Rejected e, w') => (Unsettled e, w')
          | (Unsettled e, w') => (Unsettled e, w')
          end
        else (Unsettled (CacheError_key_exists s key), w)
      else
        if β (store_add s key) w then (Resolved tt, w)
        else
          (Resolved tt,
           with_db (Some (withStore s db (IDBHelper.add (objectStore s db) value key))) w)
  end.

(** [get (key, storeName)]: [getRequest.onerror] rejects with the error of
    the request. *)
Definition get (β : Faults) (key : string) (s : storeName) : M (js (valueOf s)) := λ w,
  match _db w with
  | None => (Rejected (CacheError_not_initialized s), w)
  | Some db =>
      if β (store_get s key) w then (Rejected DOMException, w)
      else
        match objectStore s db !! key with
        | Some v => (Resolved (val v), w)
        | None => (Resolved undefined, w)
        end
  end.

(** [keys (storeName)]: [keysRequest.onerror] rejects with the error of
    the request. *)
Definition keys (β : Faults) (s : storeName) : M (list string) := λ w,
  match _db w with
  | None => (Rejected TypeError, w)
  | Some db =>
      if β (store_getAllKeys s) w then (Rejected DOMException, w)
      else (Resolved (IDBHelper.getAllKeys (objectStore s db)), w)
  end.

End IDBHelper.

(** [await fetch (key)]: a fetch that cannot be made rejects with a
    TypeError. *)
Definition fetch (β : Faults) (key : string) : M Response := λ w,
  if β (network_fetch key) w then (Rejected TypeError, note_fetch key w)
  else (Resolved (network w key), note_fetch key w).

(** [await response.arrayBuffer ()], for the response to the fetch of
    [key]: a body that cannot be read rejects with a TypeError. *)
Definition await_arrayBuffer (β : Faults) (key : string) (response : Response)
    : M (list Byte.byte) := λ w,
  if β (response_arrayBuffer key) w then (Rejected TypeError, w)
  else (Resolved (arrayBuffer response), w).

Module PDFCache.

(** [getMeta (key)]. *)
Definition getMeta (β : Faults) (key : string) : M (js CacheMeta) :=
  try_catch (IDBHelper.get β key META) (λ _, mret null).

(** [setMeta (key, meta)]. *)
Definition setMeta (β : Faults) (key : string) (meta : CacheMeta) : M unit :=
  IDBHelper.set β key META meta true.

(** [getCache (key)]. *)
Definition getCache (β : Faults) (key : string) : M (js (list Byte.byte)) :=
  try_catch
    (bytes ← IDBHelper.get β key CACHE;
     now ← Date_now;
     len ← PDFCache.length_of bytes;
     setMeta β key {| dateAccessed := now; size := len |};;
     mret bytes)
    (λ _, mret null).

(** The first loop of [prune]. *)
Fixpoint readMetas (β : Faults) (keys : list string) (totalBytes : Z)
    (metas : list (string * CacheMeta)) : M (Z * list (string * CacheMeta)) :=
  match keys with
  | [] => mret (totalBytes, metas)
  | key :: keys' =>
      meta ← IDBHelper.get β key META;
      match meta with
      | val m => readMetas β keys' (totalBytes + size m) (metas ++ [(key, m)])
      | _ => throw TypeError
      end
  end.

(** The second loop of [prune]. *)
Fixpoint evict (β : Faults) (metas : list (string * CacheMeta)) (totalBytes : Z) : M unit :=
  match metas with
  | [] => mret tt
  | next :: rest => λ w,
      if totalBytes <? PDFCache.MAX_BYTES w then (Resolved tt, w)
      else
        (IDBHelper.del β (fst next) META;;
         IDBHelper.del β (fst next) CACHE;;
         evict β rest (totalBytes - size (snd next))) w
  end.

(** [prune ()]. *)
Definition prune (β : Faults) : M unit :=
  keys ← IDBHelper.keys β META;
  '(totalBytes, metas) ← readMetas β keys 0 [];
  evict β (PDFCache.sort_by_date metas) totalBytes.

(** [setCache (key, bytes)]. *)
Definition setCache (β : Faults) (key : string) (bytes : list Byte.byte) : M unit :=
  now ← Date_now;
  let meta := {| dateAccessed := now; size := Z.of_nat (length bytes) |} in
  IDBHelper.set β key CACHE bytes true;;
  setMeta β key meta;;
  prune β.

(** [preload (key)]: every [await] is inside the [async] executor. *)
Definition preload (β : Faults) (key : string) : M unit :=
  PDFCache.new_Promise_async
    (cachedBytes ← getCache β key;
     hit ← PDFCache.nonempty cachedBytes;
     if hit : bool then mret PDFCache.resolve
     else
       response ← fetch β key;
       if ok response then
         fetchedBytes ← await_arrayBuffer β key response;
         if 0 <? Z.of_nat (length fetchedBytes) then
           setCache β key fetchedBytes;;
           mret PDFCache.resolve
         else mret (PDFCache.reject Fetch_failed)
       else mret (PDFCache.reject Fetch_failed)).

End PDFCache.

End Unreliable.

(** * Vocabulary of the properties *)

(** The backend in which nothing fails. *)
Definition reliable : Faults := λ _ _, false.

(** No request of IndexedDB fails; the network may. *)
Definition storage_reliable (β : Faults) : Prop :=
  ∀ (op : operation) (w : World),
    match op with
    | network_fetch _ | response_arrayBuffer _ => True
    | _ => β op w = false
    end.

(** The network is down: every fetch rejects, IndexedDB works. *)
Definition offline : Faults := λ op _,
  match op with
  | network_fetch _ => true
  | _ => false
  end.

(** The records of [Cache] cannot be read; everything else works. *)
Definition unreadable : Faults := λ op _,
  match op with
  | store_get CACHE _ => true
  | _ => false
  end.

(** No record of [Meta] can be deleted; everything else works. *)
Definition undeletable : Faults := λ op _,
  match op with
  | store_delete META _ => true
  | _ => false
  end.

(** The database once the records of [ks] are gone from both stores. *)
Definition evict_key (k : string) (db : Database) : Database :=
  mkDatabase (delete k (Cache db)) (delete k (Meta db)).

Definition evict_keys (ks : list string) (db : Database) : Database :=
  foldl (λ d k, evict_key k d) db ks.

Definition remove_keys {V : Type} (ks : list string) (m : gmap string V) : gmap string V :=
  foldl (λ m k, delete k m) m ks.

Definition sum_sizes (l : list (string * CacheMeta)) : Z :=
  foldr (λ e acc, size (snd e) + acc) 0 l.

(** The total that [Meta] tracks. *)
Definition totalSize (m : gmap string CacheMeta) : Z :=
  sum_sizes (map_to_list m).

Definition older (a b : string * CacheMeta) : Prop :=
  dateAccessed (snd a) ≤ dateAccessed (snd b).

(** The records that the second loop of [prune] deletes: it goes on while
    the running total is not below the budget. *)
Fixpoint evictions (budget : Z) (metas : list (string * CacheMeta)) (totalBytes : Z)
    : list (string * CacheMeta) :=
  match metas with
  | [] => []
  | next :: rest =>
      if totalBytes <? budget then []
      else next :: evictions budget rest (totalBytes - size (snd next))
  end.

(** The records of [keys] that [m] holds, in the order of [keys]. *)
Definition entries (m : gmap string CacheMeta) (keys : list string)
    : list (string * CacheMeta) :=
  omap (λ k, pair k <$> m !! k) keys.

(** The array [metas] that [prune] builds before it sorts. *)
Definition records (m : gmap string CacheMeta) : list (string * CacheMeta) :=
  entries m (IDBHelper.getAllKeys m).

(** The database that [prune] leaves behind. *)
Definition pruned (budget : Z) (db : Database) : Database :=
  evict_keys
    (map fst (evictions budget (PDFCache.sort_by_date (records (Meta db))) (totalSize (Meta db))))
    db.

(** What a forced [set] leaves in the database. *)
Definition forced (key : string) (s : storeName) (value : valueOf s) (db : Database) : Database :=
  withStore s db
    (if IDBHelper.truthy (IDBHelper.getKey (objectStore s db) key)
     then IDBHelper.add (delete key (objectStore s db)) value key
     else IDBHelper.add (objectStore s db) value key).

(** The record that [getCache] and [setCache] write for [bytes] at the
    reading [now] of the clock. *)
Definition meta_of (bytes : list Byte.byte) (now : Z) : CacheMeta :=
  {| dateAccessed := now; size := Z.of_nat (length bytes) |}.

(** The database after the two writes of [setCache]. *)
Definition written (key : string) (bytes : list Byte.byte) (now : Z) (db : Database) : Database :=
  forced key META (meta_of bytes now) (forced key CACHE bytes db).

(** [getCache] would answer with bytes, and not with an empty array. *)
Definition cached (key : string) (w : World) : bool :=
  match _db w with
  | Some db =>
      match Cache db !! key with
      | Some bytes => 0 <? Z.of_nat (length bytes)
      | None => false
      end
  | None => false
  end.

(** A call of [prune] or of [setCache], and a sequence of calls, each
    awaited before the next one is made. *)
Inductive call : Type :=
  | call_prune
  | call_setCache (key : string) (bytes : list Byte.byte).

Definition run_call (c : call) : M unit :=
  match c with
  | call_prune => PDFCache.prune
  | call_setCache key bytes => PDFCache.setCache key bytes
  end.

Fixpoint run_calls (cs : list call) : M unit :=
  match cs with
  | [] => mret tt
  | c :: cs' => run_call c;; run_calls cs'
  end.

(** An opened, empty cache with the setting [c], a clock that reads
    0, 1, 2, ... and a network that answers every fetch with a failure. *)
Definition opened (c : Z) : World :=
  mkWorld (Some (mkDatabase ∅ ∅)) c (λ n, Z.of_nat n) 0 (λ _, mkResponse false []) [].

(** One mebibyte of zeros. *)
Definition MiB : list Byte.byte := repeat Byte.x00 (Z.to_nat 1048576).

(** Four hundred thousand zeros. *)
Definition block : list Byte.byte := repeat Byte.x00 (Z.to_nat 400000).

(** [setCache] of a block under each of [a], [b], [c] in that order, then
    [getCache (a)], with a budget of two mebibytes; then the setting becomes
    one mebibyte and [prune] runs: it has to evict one entry. *)
Definition recency_run (a b c : string) : M unit :=
  PDFCache.setCache a block;;
  PDFCache.setCache b block;;
  PDFCache.setCache c block;;
  PDFCache.getCache a;;
  configure 1;;
  PDFCache.prune.

(** The keys that [Cache] and [Meta] hold. *)
Definition cache_keys (w : World) : option (list string * list string) :=
  (λ db, (IDBHelper.getAllKeys (Cache db), IDBHelper.getAllKeys (Meta db))) <$> _db w.

Definition strictly_older (a b : string * CacheMeta) : Prop :=
  dateAccessed (snd a) < dateAccessed (snd b).

(** An opened, empty cache whose clock stands still: every reading falls
    in the same millisecond. *)
Definition frozen (c : Z) : World :=
  mkWorld (Some (mkDatabase ∅ ∅)) c (λ _, 0) 0 (λ _, mkResponse false []) [].

(** [Meta] describes [Cache]: the two stores hold the same keys, and the
    size recorded for a key is the length of the bytes stored for it. *)
Definition consistent (db : Database) : Prop :=
  ∀ key,
    match Cache db !! key, Meta db !! key with
    | Some bytes, Some meta => size meta = Z.of_nat (length bytes)
    | None, None => True
    | _, _ => False
    end.


(** The number of bytes that [Cache] holds. *)
Definition storedBytes (m : gmap string (list Byte.byte)) : Z :=
  foldr (λ e acc, Z.of_nat (length (snd e)) + acc) 0 (map_to_list m).

(** A call of one of the public operations of [PDFCache] that only go
    through the cache ([setMeta] writes a record of the caller's making),
    and the world after it has settled, however it has settled. *)
Inductive request : Type :=
  | req_getMeta (key : string)
  | req_getCache (key : string)
  | req_setCache (key : string) (bytes : list Byte.byte)
  | req_preload (key : string)
  | req_prune.

Definition serve (r : request) (w : World) : World :=
  match r with
  | req_getMeta key => snd (PDFCache.getMeta key w)
  | req_getCache key => snd (PDFCache.getCache key w)
  | req_setCache key bytes => snd (PDFCache.setCache key bytes w)
  | req_preload key => snd (PDFCache.preload key w)
  | req_prune => snd (PDFCache.prune w)
  end.

Definition serve_all (rs : list request) (w : World) : World :=
  foldl (λ w r, serve r w) w rs.

(** Every date in [Meta] is a reading of the clock that was taken
    before. *)
Definition stamped (w : World) : Prop :=
  ∀ db key meta,
    _db w = Some db → Meta db !! key = Some meta →
    ∃ n, (n < ticks w)%nat ∧ dateAccessed meta = clock w n.

(** The record was last accessed at [d]. *)
Definition dated (d : Z) (e : string * CacheMeta) : bool := dateAccessed (snd e) =? d.

(** * Properties *)

(** Split a conjunction into its parts, and leave equations alone. *)
Ltac split_all := repeat match goal with |- _ ∧ _ => split end.

(** ** Worlds and databases *)

(** A run that resolves, and the world it leaves. *)
Lemma resolved_eq {A : Type} (m : M A) (w : World) (a : A) :
  fst (m w) = Resolved a → m w = (Resolved a, snd (m w)).
Proof. destruct (m w) as [r w']. simpl. intros ->. reflexivity. Qed.

Lemma with_db_id (w : World) (db : Database) :
  _db w = Some db → with_db (Some db) w = w.
Proof. destruct w; simpl; intros ->; reflexivity. Qed.

Lemma Cache_evict_keys (ks : list string) (db : Database) :
  Cache (evict_keys ks db) = remove_keys ks (Cache db).
Proof.
  unfold evict_keys, remove_keys.
  revert db; induction ks as [|k ks IH]; intros db; [reflexivity|].
  cbn [foldl]. rewrite IH. reflexivity.
Qed.

Lemma Meta_evict_keys (ks : list string) (db : Database) :
  Meta (evict_keys ks db) = remove_keys ks (Meta db).
Proof.
  unfold evict_keys, remove_keys.
  revert db; induction ks as [|k ks IH]; intros db; [reflexivity|].
  cbn [foldl]. rewrite IH. reflexivity.
Qed.

Lemma remove_keys_cons {V : Type} (k : string) (ks : list string) (m : gmap string V) :
  remove_keys (k :: ks) m = remove_keys ks (delete k m).
Proof. reflexivity. Qed.

Lemma lookup_remove_keys {V : Type} (ks : list string) (m : gmap string V) (k : string) :
  remove_keys ks m !! k = if decide (k ∈ ks) then None else m !! k.
Proof.
  revert m; induction ks as [|k' ks IH]; intros m.
  - destruct (decide (k ∈ [])) as [Hin|_]; [inversion Hin | reflexivity].
  - rewrite remove_keys_cons, IH.
    destruct (decide (k ∈ ks)) as [Hin|Hnin];
      destruct (decide (k ∈ k' :: ks)) as [Hin'|Hnin']; try reflexivity.
    + exfalso. apply Hnin'. right. exact Hin.
    + apply elem_of_cons in Hin' as [->|Hin']; [apply lookup_delete_eq | contradiction].
    + apply lookup_delete_ne. intros ->. apply Hnin'. left.
Qed.

(** ** Sizes *)

Lemma sum_sizes_app (l1 l2 : list (string * CacheMeta)) :
  sum_sizes (l1 ++ l2) = sum_sizes l1 + sum_sizes l2.
Proof. induction l1 as [|e l1 IH]; simpl; lia. Qed.

Lemma sum_sizes_perm (l1 l2 : list (string * CacheMeta)) :
  l1 ≡ₚ l2 → sum_sizes l1 = sum_sizes l2.
Proof. induction 1; simpl; lia. Qed.

Lemma totalSize_empty : totalSize ∅ = 0.
Proof. unfold totalSize. rewrite map_to_list_empty. reflexivity. Qed.

Lemma totalSize_insert (m : gmap string CacheMeta) (k : string) (meta : CacheMeta) :
  m !! k = None → totalSize (<[k := meta]> m) = size meta + totalSize m.
Proof.
  intros Hk. unfold totalSize.
  rewrite (sum_sizes_perm _ _ (map_to_list_insert m k meta Hk)). reflexivity.
Qed.

(** ** The sort of [prune] *)

Lemma insert_by_date_perm (a : string * CacheMeta) (l : list (string * CacheMeta)) :
  PDFCache.insert_by_date a l ≡ₚ a :: l.
Proof.
  induction l as [|b l IH]; simpl; [reflexivity|].
  destruct (dateAccessed (snd a) <=? dateAccessed (snd b)); [reflexivity|].
  rewrite IH. apply Permutation_swap.
Qed.

Lemma sort_by_date_perm (l : list (string * CacheMeta)) :
  PDFCache.sort_by_date l ≡ₚ l.
Proof.
  induction l as [|a l IH]; simpl; [reflexivity|].
  rewrite insert_by_date_perm, IH. reflexivity.
Qed.

Lemma insert_by_date_sorted (a : string * CacheMeta) (l : list (string * CacheMeta)) :
  StronglySorted older l → StronglySorted older (PDFCache.insert_by_date a l).
Proof.
  induction 1 as [|b l Hl IH Hb]; simpl.
  - repeat constructor.
  - destruct (dateAccessed (snd a) <=? dateAccessed (snd b)) eqn:Hab.
    + apply Z.leb_le in Hab. constructor; [constructor; assumption|].
      constructor; [exact Hab|].
      eapply Forall_impl; [exact Hb|]. unfold older. intros c Hc. lia.
    + apply Z.leb_gt in Hab. constructor; [exact IH|].
      rewrite insert_by_date_perm. constructor; [unfold older; lia | exact Hb].
Qed.

Lemma sort_by_date_sorted (l : list (string * CacheMeta)) :
  StronglySorted older (PDFCache.sort_by_date l).
Proof.
  induction l as [|a l IH]; simpl; [constructor|].
  apply insert_by_date_sorted, IH.
Qed.

(** In a sorted array every record of a prefix is at least as old as every
    record after it. *)
Lemma sorted_app_older (l1 l2 : list (string * CacheMeta)) (a b : string * CacheMeta) :
  StronglySorted older (l1 ++ l2) → a ∈ l1 → b ∈ l2 → older a b.
Proof.
  induction l1 as [|c l1 IH]; simpl; intros Hs Ha Hb; [inversion Ha|].
  apply StronglySorted_inv in Hs as [Hs Hc].
  apply elem_of_cons in Ha as [->|Ha]; [|apply IH; assumption].
  rewrite Forall_forall in Hc. apply Hc. apply elem_of_app. right. exact Hb.
Qed.

(** ** The eviction loop, as a function of the budget *)

Lemma evictions_prefix (budget : Z) (metas : list (string * CacheMeta)) (totalBytes : Z) :
  ∃ kept, metas = evictions budget metas totalBytes ++ kept.
Proof.
  revert totalBytes; induction metas as [|next rest IH]; intros totalBytes; simpl.
  - exists []. reflexivity.
  - destruct (totalBytes <? budget).
    + eexists. reflexivity.
    + destruct (IH (totalBytes - size (snd next))) as [kept Hk].
      exists kept. simpl. congruence.
Qed.

(** Every deletion was made with a running total at or above the budget. *)
Lemma evictions_while_over (budget : Z) (metas : list (string * CacheMeta)) (totalBytes : Z)
    (n : nat) :
  (n < length (evictions budget metas totalBytes))%nat →
  budget ≤ totalBytes - sum_sizes (take n (evictions budget metas totalBytes)).
Proof.
  revert totalBytes n; induction metas as [|next rest IH]; intros totalBytes n; simpl.
  - lia.
  - destruct (totalBytes <? budget) eqn:Hlt; simpl; [lia|].
    apply Z.ltb_ge in Hlt. destruct n as [|n]; simpl; [lia|].
    intros Hn. specialize (IH (totalBytes - size (snd next)) n). lia.
Qed.

(** The loop stops at the first running total below the budget, or at the
    end of the array. *)
Lemma evictions_stop (budget : Z) (metas : list (string * CacheMeta)) (totalBytes : Z) :
  evictions budget metas totalBytes = metas ∨
  totalBytes - sum_sizes (evictions budget metas totalBytes) < budget.
Proof.
  revert totalBytes; induction metas as [|next rest IH]; intros totalBytes; simpl.
  - left. reflexivity.
  - destruct (totalBytes <? budget) eqn:Hlt; simpl.
    + apply Z.ltb_lt in Hlt. right. lia.
    + destruct (IH (totalBytes - size (snd next))) as [->|H]; [left; reflexivity|].
      right. lia.
Qed.

Lemma evictions_below (budget : Z) (metas : list (string * CacheMeta)) (totalBytes : Z) :
  totalBytes < budget → evictions budget metas totalBytes = [].
Proof.
  intros Hlt. destruct metas as [|next rest]; simpl; [reflexivity|].
  apply Z.ltb_lt in Hlt. rewrite Hlt. reflexivity.
Qed.

Lemma evictions_over (budget : Z) (next : string * CacheMeta)
    (rest : list (string * CacheMeta)) (totalBytes : Z) :
  budget ≤ totalBytes →
  evictions budget (next :: rest) totalBytes
  = next :: evictions budget rest (totalBytes - size (snd next)).
Proof. intros Hge. apply Z.ltb_ge in Hge. simpl. rewrite Hge. reflexivity. Qed.

(** The loop of the code does to the database what [evictions] says. *)
Lemma evict_spec (metas : list (string * CacheMeta)) (totalBytes : Z) (w : World)
    (db : Database) :
  _db w = Some db →
  PDFCache.evict metas totalBytes w
  = (Resolved tt,
     with_db (Some (evict_keys (map fst (evictions (PDFCache.MAX_BYTES w) metas totalBytes)) db)) w).
Proof.
  revert totalBytes w db; induction metas as [|next rest IH]; intros totalBytes w db Hdb.
  - simpl. rewrite (with_db_id _ _ Hdb). reflexivity.
  - simpl. destruct (totalBytes <? PDFCache.MAX_BYTES w) eqn:Hlt.
    + simpl. rewrite (with_db_id _ _ Hdb). reflexivity.
    + unfold mbind, M_bind, IDBHelper.del. rewrite Hdb. simpl.
      erewrite IH by reflexivity. reflexivity.
Qed.

(** ** The reading loop *)

Lemma getAllKeys_perm {V : Type} (m : gmap string V) :
  IDBHelper.getAllKeys m ≡ₚ map fst (map_to_list m).
Proof. unfold IDBHelper.getAllKeys. apply merge_sort_Permutation. Qed.

Lemma elem_of_getAllKeys {V : Type} (m : gmap string V) (k : string) :
  k ∈ IDBHelper.getAllKeys m ↔ is_Some (m !! k).
Proof.
  rewrite getAllKeys_perm. change (map fst (map_to_list m)) with ((map_to_list m).*1).
  rewrite list_elem_of_fmap. split.
  - intros [[k' v] [-> Hin]]. apply elem_of_map_to_list in Hin. eauto.
  - intros [v Hv]. exists (k, v). split; [reflexivity|]. apply elem_of_map_to_list, Hv.
Qed.

Lemma entries_perm (m : gmap string CacheMeta) (l1 l2 : list string) :
  l1 ≡ₚ l2 → entries m l1 ≡ₚ entries m l2.
Proof. intros H. unfold entries. rewrite H. reflexivity. Qed.

Lemma entries_map_to_list (m : gmap string CacheMeta) (l : list (string * CacheMeta)) :
  (∀ e, e ∈ l → m !! fst e = Some (snd e)) → entries m (map fst l) = l.
Proof.
  induction l as [|[k v] l IH]; intros Hl; [reflexivity|].
  assert (Hk : m !! k = Some v) by (apply (Hl (k, v)); left).
  unfold entries in *. simpl. rewrite Hk. simpl.
  f_equal. apply IH. intros e He. apply Hl. right. exact He.
Qed.

Lemma records_perm (m : gmap string CacheMeta) : records m ≡ₚ map_to_list m.
Proof.
  unfold records. rewrite (entries_perm _ _ _ (getAllKeys_perm m)).
  rewrite entries_map_to_list; [reflexivity|].
  intros [k v] He. apply elem_of_map_to_list in He. exact He.
Qed.

Lemma sum_sizes_records (m : gmap string CacheMeta) : sum_sizes (records m) = totalSize m.
Proof. apply sum_sizes_perm, records_perm. Qed.

(** Reading the records of keys that are all in [Meta] resolves with the
    sum of their sizes and with their records in the order of the keys. *)
Lemma readMetas_spec (keys : list string) (totalBytes : Z)
    (metas : list (string * CacheMeta)) (w : World) (db : Database) :
  _db w = Some db →
  (∀ k, k ∈ keys → is_Some (Meta db !! k)) →
  PDFCache.readMetas keys totalBytes metas w
  = (Resolved (totalBytes + sum_sizes (entries (Meta db) keys),
               metas ++ entries (Meta db) keys), w).
Proof.
  revert totalBytes metas; induction keys as [|k keys IH]; intros totalBytes metas Hdb Hk.
  - simpl. unfold mret, M_ret. rewrite Z.add_0_r, app_nil_r. reflexivity.
  - destruct (Hk k) as [m Hm]; [left|].
    simpl. unfold mbind, M_bind, IDBHelper.get. rewrite Hdb. simpl. rewrite Hm.
    rewrite IH; [|exact Hdb|intros k' Hk'; apply Hk; right; exact Hk'].
    simpl. rewrite <- app_assoc, Z.add_assoc. reflexivity.
Qed.

(** ** [prune] as a function of the database and of the budget *)

(** On an opened database [prune] resolves, and leaves [pruned]. *)
Lemma prune_spec (w : World) (db : Database) :
  _db w = Some db →
  PDFCache.prune w = (Resolved tt, with_db (Some (pruned (PDFCache.MAX_BYTES w) db)) w).
Proof.
  intros Hdb. unfold PDFCache.prune, mbind, M_bind at 1, IDBHelper.keys.
  rewrite Hdb. simpl.
  unfold M_bind.
  rewrite (readMetas_spec _ _ _ _ db Hdb)
    by (intros k Hk; apply (elem_of_getAllKeys (Meta db)), Hk).
  simpl. rewrite (evict_spec _ _ _ db Hdb).
  fold (records (Meta db)). rewrite sum_sizes_records. reflexivity.
Qed.

(** On a helper that was never opened [prune] rejects at its first call. *)
Lemma prune_not_initialized (w : World) :
  _db w = None → PDFCache.prune w = (Rejected TypeError, w).
Proof.
  intros Hdb. unfold PDFCache.prune, mbind, M_bind, IDBHelper.keys.
  rewrite Hdb. reflexivity.
Qed.

(** What is left in [Meta] after an eviction of a prefix. *)
Lemma map_to_list_remove_keys (m : gmap string CacheMeta)
    (gone kept : list (string * CacheMeta)) :
  map_to_list m ≡ₚ gone ++ kept →
  map_to_list (remove_keys (map fst gone) m) ≡ₚ kept.
Proof.
  revert m; induction gone as [|[k v] gone IH]; intros m Hm; [exact Hm|].
  simpl map. rewrite remove_keys_cons. apply IH.
  assert (Hk : m !! k = Some v).
  { apply elem_of_map_to_list. rewrite Hm. left. }
  apply (Permutation_cons_inv (a := (k, v))).
  rewrite (map_to_list_delete m k v Hk). exact Hm.
Qed.

Lemma pruned_split (budget : Z) (db : Database) :
  ∃ kept,
    PDFCache.sort_by_date (records (Meta db))
    = evictions budget (PDFCache.sort_by_date (records (Meta db))) (totalSize (Meta db)) ++ kept
    ∧ map_to_list (Meta (pruned budget db)) ≡ₚ kept.
Proof.
  destruct (evictions_prefix budget (PDFCache.sort_by_date (records (Meta db)))
              (totalSize (Meta db))) as [kept Hk].
  exists kept. split; [exact Hk|].
  unfold pruned. rewrite Meta_evict_keys. apply map_to_list_remove_keys.
  rewrite <- Hk, sort_by_date_perm, records_perm. reflexivity.
Qed.

Lemma pruned_totalSize (budget : Z) (db : Database) :
  totalSize (Meta (pruned budget db))
  = totalSize (Meta db)
    - sum_sizes (evictions budget (PDFCache.sort_by_date (records (Meta db))) (totalSize (Meta db))).
Proof.
  destruct (pruned_split budget db) as (kept & Hk & Hp).
  unfold totalSize at 1. rewrite (sum_sizes_perm _ _ Hp).
  apply (f_equal sum_sizes) in Hk.
  rewrite sum_sizes_app, (sum_sizes_perm _ _ (sort_by_date_perm _)), sum_sizes_records in Hk.
  lia.
Qed.

(** After the pass the total is below the budget, or nothing is left. *)
Lemma pruned_within (budget : Z) (db : Database) :
  totalSize (Meta (pruned budget db)) < budget ∨ Meta (pruned budget db) = ∅.
Proof.
  destruct (evictions_stop budget (PDFCache.sort_by_date (records (Meta db)))
              (totalSize (Meta db))) as [Hall|Hlt].
  - right. destruct (pruned_split budget db) as (kept & Hk & Hp).
    rewrite Hall in Hk. rewrite <- (app_nil_r (PDFCache.sort_by_date _)) in Hk at 1.
    apply app_inv_head in Hk. subst kept.
    apply Permutation_nil_r in Hp. apply map_to_list_empty_iff, Hp.
  - left. rewrite pruned_totalSize. exact Hlt.
Qed.

(** Below the budget the pass deletes nothing. *)
Lemma pruned_below (budget : Z) (db : Database) :
  totalSize (Meta db) < budget → pruned budget db = db.
Proof.
  intros Hlt. unfold pruned. rewrite evictions_below by exact Hlt.
  destruct db; reflexivity.
Qed.

(** At or above the budget the pass deletes a record, if there is one. *)
Lemma pruned_at_or_over (budget : Z) (db : Database) :
  budget ≤ totalSize (Meta db) → Meta db ≠ ∅ → Meta (pruned budget db) ≠ Meta db.
Proof.
  intros Hge Hne Heq.
  destruct (PDFCache.sort_by_date (records (Meta db))) as [|[k v] rest] eqn:Hs.
  - apply Hne, map_to_list_empty_iff, Permutation_nil_r.
    rewrite <- records_perm, <- sort_by_date_perm, Hs. reflexivity.
  - assert (Hk : Meta (pruned budget db) !! k = None).
    { unfold pruned. rewrite Hs, evictions_over by exact Hge.
      rewrite Meta_evict_keys, lookup_remove_keys. simpl.
      rewrite decide_True by left. reflexivity. }
    assert (Hin : (k, v) ∈ map_to_list (Meta db)).
    { rewrite <- records_perm, <- sort_by_date_perm, Hs. left. }
    apply elem_of_map_to_list in Hin. rewrite Heq in Hk. congruence.
Qed.

(** ** [IDBHelper.set] with [force] *)

Lemma objectStore_withStore (s : storeName) (db : Database) (m : gmap string (valueOf s)) :
  objectStore s (withStore s db m) = m.
Proof. destruct s; reflexivity. Qed.

Lemma withStore_withStore (s : storeName) (db : Database) (m m' : gmap string (valueOf s)) :
  withStore s (withStore s db m) m' = withStore s db m'.
Proof. destruct s; reflexivity. Qed.

(** A forced [set] in one store leaves the other store alone. *)
Lemma Cache_forced_META (key : string) (meta : CacheMeta) (db : Database) :
  Cache (forced key META meta db) = Cache db.
Proof. reflexivity. Qed.

Lemma set_force_spec (key : string) (s : storeName) (value : valueOf s) (w : World)
    (db : Database) :
  _db w = Some db →
  IDBHelper.set key s value true w = (Resolved tt, with_db (Some (forced key s value db)) w).
Proof.
  intros Hdb. unfold IDBHelper.set, forced, IDBHelper.del. rewrite Hdb.
  destruct (IDBHelper.truthy (IDBHelper.getKey (objectStore s db) key)); [|reflexivity].
  simpl. rewrite objectStore_withStore, withStore_withStore. reflexivity.
Qed.

Lemma truthy_getKey {V : Type} (m : gmap string V) (key : string) :
  IDBHelper.truthy (IDBHelper.getKey m key)
  = match m !! key with Some _ => negb (String.eqb key EmptyString) | None => false end.
Proof. unfold IDBHelper.getKey. destruct (m !! key); reflexivity. Qed.

(** On a key that is not the empty string a forced [set] overwrites. *)
Lemma forced_nonempty (key : string) (s : storeName) (value : valueOf s) (db : Database) :
  key ≠ EmptyString →
  forced key s value db = withStore s db (<[key := value]> (objectStore s db)).
Proof.
  intros Hne. unfold forced. rewrite truthy_getKey.
  destruct (objectStore s db !! key) as [v|] eqn:Hk.
  - apply String.eqb_neq in Hne. rewrite Hne. simpl.
    unfold IDBHelper.add. rewrite lookup_delete_eq, insert_delete_eq. reflexivity.
  - unfold IDBHelper.add. rewrite Hk. reflexivity.
Qed.

(** On a key that has no record yet [set] adds the record. *)
Lemma forced_fresh (key : string) (s : storeName) (value : valueOf s) (db : Database) :
  objectStore s db !! key = None →
  forced key s value db = withStore s db (<[key := value]> (objectStore s db)).
Proof.
  intros Hk. unfold forced. rewrite truthy_getKey, Hk.
  unfold IDBHelper.add. rewrite Hk. reflexivity.
Qed.

(** The slip of the test [if (keyRequest.result)]: the empty string is a
    key like any other, but it is falsy, so a forced [set] on it goes to
    [store.add], which does not replace a record. *)
Lemma forced_empty_key (s : storeName) (value old : valueOf s) (db : Database) :
  objectStore s db !! EmptyString = Some old →
  forced EmptyString s value db = db.
Proof.
  intros Hk. unfold forced. rewrite truthy_getKey, Hk. simpl.
  unfold IDBHelper.add. rewrite Hk. destruct s, db; reflexivity.
Qed.

(** ** [getMeta], [getCache] and [setCache] *)

(** Whatever makes the awaited promise reject, a [catch] that returns
    [null] turns the rejection into the answer [null]. *)
Lemma try_catch_null {A : Type} (m : M (js A)) (w w' : World) (e : error) :
  m w = (Rejected e, w') → try_catch m (λ _, mret null) w = (Resolved null, w').
Proof. unfold try_catch. intros ->. reflexivity. Qed.

Lemma getMeta_spec (key : string) (w : World) :
  PDFCache.getMeta key w
  = match _db w with
    | None => (Resolved null, w)
    | Some db =>
        match Meta db !! key with
        | Some meta => (Resolved (val meta), w)
        | None => (Resolved undefined, w)
        end
    end.
Proof.
  unfold PDFCache.getMeta, try_catch, IDBHelper.get.
  destruct (_db w) as [db|]; [|reflexivity].
  simpl. destruct (Meta db !! key); reflexivity.
Qed.

Lemma getCache_spec (key : string) (w : World) :
  PDFCache.getCache key w
  = match _db w with
    | None => (Resolved null, w)
    | Some db =>
        match Cache db !! key with
        | Some bytes =>
            (Resolved (val bytes),
             with_db (Some (forced key META (meta_of bytes (clock w (ticks w))) db)) (tick w))
        | None => (Resolved null, tick w)
        end
    end.
Proof.
  unfold PDFCache.getCache, try_catch, mbind, M_bind, IDBHelper.get.
  destruct (_db w) as [db|] eqn:Hdb; [|reflexivity].
  simpl. destruct (Cache db !! key) as [bytes|]; [|reflexivity].
  simpl. unfold PDFCache.setMeta.
  rewrite (set_force_spec _ _ _ _ db) by exact Hdb. reflexivity.
Qed.

Lemma setCache_spec (key : string) (bytes : list Byte.byte) (w : World) (db : Database) :
  _db w = Some db →
  PDFCache.setCache key bytes w
  = PDFCache.prune (with_db (Some (written key bytes (clock w (ticks w)) db)) (tick w)).
Proof.
  intros Hdb. unfold PDFCache.setCache, mbind, M_bind, PDFCache.setMeta, Date_now.
  rewrite (set_force_spec _ _ _ _ db) by exact Hdb.
  rewrite (set_force_spec _ _ _ _ (forced key CACHE bytes db)) by reflexivity.
  reflexivity.
Qed.

Lemma setCache_not_initialized (key : string) (bytes : list Byte.byte) (w : World) :
  _db w = None →
  PDFCache.setCache key bytes w = (Rejected (CacheError_not_initialized CACHE), tick w).
Proof.
  intros Hdb. unfold PDFCache.setCache, mbind, M_bind, Date_now, IDBHelper.set.
  simpl. rewrite Hdb. reflexivity.
Qed.

(** On an opened database [setCache] resolves. *)
Lemma setCache_resolves (key : string) (bytes : list Byte.byte) (w : World) (db : Database) :
  _db w = Some db →
  PDFCache.setCache key bytes w
  = (Resolved tt,
     with_db (Some (pruned (PDFCache.MAX_BYTES w) (written key bytes (clock w (ticks w)) db)))
       (tick w)).
Proof.
  intros Hdb. rewrite (setCache_spec _ _ _ db Hdb).
  rewrite (prune_spec _ (written key bytes (clock w (ticks w)) db)) by reflexivity.
  reflexivity.
Qed.

(** ** [preload] *)

(** A hit: [preload] resolves after [getCache], and does not fetch. *)
Lemma preload_hit (key : string) (w : World) :
  cached key w = true →
  PDFCache.preload key w = (Resolved tt, snd (PDFCache.getCache key w)).
Proof.
  unfold cached, PDFCache.preload, PDFCache.new_Promise_async, mbind, M_bind.
  rewrite getCache_spec.
  destruct (_db w) as [db|]; [|discriminate].
  destruct (Cache db !! key) as [bytes|]; [|discriminate].
  intros Hlen. simpl. rewrite Hlen. reflexivity.
Qed.

(** A miss: [preload] fetches, and goes by the answer. *)
Lemma preload_miss (key : string) (w : World) :
  cached key w = false →
  PDFCache.preload key w
  = let w1 := note_fetch key (snd (PDFCache.getCache key w)) in
    let response := network w key in
    if ok response && (0 <? Z.of_nat (length (arrayBuffer response))) then
      match PDFCache.setCache key (arrayBuffer response) w1 with
      | (Resolved _, w') => (Resolved tt, w')
      | (Rejected e, w') => (Unsettled e, w')
      | (Unsettled e, w') => (Unsettled e, w')
      end
    else (Rejected Fetch_failed, w1).
Proof.
  unfold cached, PDFCache.preload, PDFCache.new_Promise_async, mbind, M_bind.
  rewrite getCache_spec.
  destruct (_db w) as [db|]; [destruct (Cache db !! key) as [bytes|]|];
    intros Hlen; simpl; rewrite ?Hlen; unfold fetch; simpl;
    (destruct (ok (network w key)); [|reflexivity]);
    (destruct (0 <? Z.of_nat (length (arrayBuffer (network w key)))); [|reflexivity]);
    simpl;
    match goal with
    | |- context [PDFCache.setCache ?k ?b ?w1] =>
        destruct (PDFCache.setCache k b w1) as [[[]|e|e] w']
    end; reflexivity.
Qed.

(** ** Runs of [prune] and [setCache] *)

Lemma run_calls_snoc (cs : list call) (c : call) (w w' : World) :
  run_calls (cs ++ [c]) w = (Resolved tt, w') →
  ∃ w1, run_calls cs w = (Resolved tt, w1) ∧ run_call c w1 = (Resolved tt, w').
Proof.
  revert w; induction cs as [|c0 cs IH]; intros w; simpl.
  - unfold mbind, M_bind, mret, M_ret. intros H. exists w. split; [reflexivity|].
    destruct (run_call c w) as [[[]|e|e] w1]; congruence.
  - unfold mbind, M_bind. destruct (run_call c0 w) as [[[]|e|e] w1]; try discriminate.
    apply IH.
Qed.

(** A call that resolves ends with a pass of [prune] over an opened
    database. *)
Lemma run_call_resolved (c : call) (w w' : World) :
  run_call c w = (Resolved tt, w') →
  ∃ db', _db w' = Some db' ∧ CacheSize w' = CacheSize w ∧
         ∃ db, db' = pruned (PDFCache.MAX_BYTES w) db.
Proof.
  destruct (_db w) as [db|] eqn:Hdb; destruct c as [|key bytes]; simpl.
  - rewrite (prune_spec _ _ Hdb). intros [= <-]. eauto.
  - rewrite (setCache_resolves _ _ _ _ Hdb). intros [= <-]. eauto.
  - rewrite (prune_not_initialized _ Hdb). discriminate.
  - rewrite (setCache_not_initialized _ _ _ Hdb). discriminate.
Qed.

(** ** [set] on a key that has a record *)

(** For a key other than the empty string a forced [set] replaces the
    old value by the new one. *)
Lemma forced_set_overwrites_nonempty_key (key : string) (s : storeName)
    (v2 : valueOf s) (w : World) (db : Database) :
  key ≠ EmptyString →
  _db w = Some db →
  ∃ w', IDBHelper.set key s v2 true w = (Resolved tt, w')
    ∧ IDBHelper.get key s w' = (Resolved (val v2), w').
Proof.
  intros Hne Hdb. eexists. split; [apply set_force_spec, Hdb|].
  unfold IDBHelper.get. simpl. rewrite forced_nonempty by exact Hne.
  rewrite objectStore_withStore, lookup_insert_eq. reflexivity.
Qed.

(** Without [force], on a key other than the empty string that has a
    record, the CacheError is thrown and the database is left as it was;
    it is thrown inside the handler of the key request, where nothing
    turns it into a rejection of the promise that [set] returned. *)
Lemma unforced_set_on_existing_key (key : string) (s : storeName)
    (v1 v2 : valueOf s) (w : World) (db : Database) :
  key ≠ EmptyString →
  _db w = Some db →
  objectStore s db !! key = Some v1 →
  IDBHelper.set key s v2 false w = (Unsettled (CacheError_key_exists s key), w).
Proof.
  intros Hne Hdb Hk. unfold IDBHelper.set. rewrite Hdb, truthy_getKey, Hk.
  apply String.eqb_neq in Hne. rewrite Hne. reflexivity.
Qed.

(** ** [preload] after [preload] *)


Lemma Cache_written (key : string) (bytes : list Byte.byte) (now : Z) (db : Database) :
  key ≠ EmptyString →
  Cache (written key bytes now db) = <[key := bytes]> (Cache db).
Proof.
  intros Hne. unfold written. rewrite Cache_forced_META.
  rewrite (forced_nonempty key CACHE bytes db Hne). reflexivity.
Qed.

(** What [prune] leaves in [Cache] under a key is what was there. *)
Lemma Cache_pruned_lookup (budget : Z) (db : Database) (key : string) (bytes : list Byte.byte) :
  Cache (pruned budget db) !! key = Some bytes → Cache db !! key = Some bytes.
Proof.
  unfold pruned. rewrite Cache_evict_keys, lookup_remove_keys.
  destruct (decide _); [discriminate|]. intros H; exact H.
Qed.

Lemma written_fresh (key : string) (bytes : list Byte.byte) (now : Z) (db : Database) :
  Cache db !! key = None → Meta db !! key = None →
  written key bytes now db
  = mkDatabase (<[key := bytes]> (Cache db)) (<[key := meta_of bytes now]> (Meta db)).
Proof.
  intros Hc Hm. unfold written.
  rewrite (forced_fresh key CACHE bytes db Hc).
  rewrite (forced_fresh key META (meta_of bytes now)) by exact Hm.
  reflexivity.
Qed.

(** ** Least recently accessed first *)

(** [prune] deletes a prefix of the records sorted by date of access, so
    every record that goes is at least as old as every record that stays. *)
Lemma prune_evicts_oldest (w : World) (db : Database) :
  _db w = Some db →
  ∃ gone kept,
    PDFCache.sort_by_date (records (Meta db)) = gone ++ kept
    ∧ StronglySorted older (gone ++ kept)
    ∧ gone ++ kept ≡ₚ map_to_list (Meta db)
    ∧ PDFCache.prune w = (Resolved tt, with_db (Some (evict_keys (map fst gone) db)) w)
    ∧ (∀ a b, a ∈ gone → b ∈ kept → older a b).
Proof.
  intros Hdb.
  destruct (evictions_prefix (PDFCache.MAX_BYTES w) (PDFCache.sort_by_date (records (Meta db)))
              (totalSize (Meta db))) as [kept Hk].
  exists (evictions (PDFCache.MAX_BYTES w) (PDFCache.sort_by_date (records (Meta db)))
            (totalSize (Meta db))), kept.
  assert (Hs : StronglySorted older
                 (evictions (PDFCache.MAX_BYTES w) (PDFCache.sort_by_date (records (Meta db)))
                    (totalSize (Meta db)) ++ kept))
    by (rewrite <- Hk; apply sort_by_date_sorted).
  split; [exact Hk|]. split; [exact Hs|].
  split; [rewrite <- Hk, sort_by_date_perm; apply records_perm|].
  split; [apply prune_spec, Hdb|].
  intros a b. apply sorted_app_older, Hs.
Qed.

(** Records with different dates can be sorted in one way only. *)
Lemma sorted_perm_strict (l l' : list (string * CacheMeta)) :
  StronglySorted older l → StronglySorted strictly_older l' → l ≡ₚ l' → l = l'.
Proof.
  revert l; induction l' as [|x l' IH]; intros l Hl Hl' Hp.
  - apply Permutation_nil_r in Hp. exact Hp.
  - destruct l as [|y m]; [apply Permutation_nil_cons in Hp; contradiction|].
    apply StronglySorted_inv in Hl as [Hm Hy].
    apply StronglySorted_inv in Hl' as [Hl' Hx].
    rewrite Forall_forall in Hy, Hx.
    assert (Hyx : y = x).
    { assert (Hin : y ∈ x :: l') by (rewrite <- Hp; left).
      apply elem_of_cons in Hin as [Heq|Hin]; [exact Heq|].
      assert (Hin' : x ∈ y :: m) by (rewrite Hp; left).
      apply elem_of_cons in Hin' as [Heq|Hin']; [congruence|].
      specialize (Hx y Hin). specialize (Hy x Hin').
      unfold older, strictly_older in *. lia. }
    subst y. f_equal. apply IH; [exact Hm|exact Hl'|].
    apply (Permutation_cons_inv Hp).
Qed.

Lemma bind_resolved {A B : Type} (m : M A) (k : A → M B) (w w' : World) (a : A) :
  m w = (Resolved a, w') → (m ≫= k) w = k a w'.
Proof. unfold mbind, M_bind. intros ->. reflexivity. Qed.

(** [setCache] of [a], [b], [c] in that order on an empty cache, with
    nothing evicted on the way, then [getCache (a)], then a [prune] that has
    to evict one entry: when the readings of the clock increase and [a] is
    not the empty string, the entry of [b] goes and the other two stay. *)
Lemma recency_scenario (a b c : string) (ba bb bc : list Byte.byte)
    (w : World) (c2 : Z) :
  a ≠ EmptyString → a ≠ b → a ≠ c → b ≠ c →
  _db w = Some (mkDatabase ∅ ∅) →
  Z.of_nat (length ba) + Z.of_nat (length bb) + Z.of_nat (length bc) < PDFCache.MAX_BYTES w →
  clock w (S (ticks w)) < clock w (S (S (ticks w))) →
  clock w (S (S (ticks w))) < clock w (S (S (S (ticks w)))) →
  c2 * 2 ^ 20 ≤ Z.of_nat (length ba) + Z.of_nat (length bb) + Z.of_nat (length bc) →
  Z.of_nat (length ba) + Z.of_nat (length bc) < c2 * 2 ^ 20 →
  ∃ w' db',
    (PDFCache.setCache a ba;; PDFCache.setCache b bb;; PDFCache.setCache c bc;;
     PDFCache.getCache a;; configure c2;; PDFCache.prune) w = (Resolved tt, w')
    ∧ _db w' = Some db'
    ∧ Cache db' !! b = None ∧ Meta db' !! b = None
    ∧ Cache db' !! a = Some ba
    ∧ Meta db' !! a = Some (meta_of ba (clock w (S (S (S (ticks w))))))
    ∧ Cache db' !! c = Some bc
    ∧ Meta db' !! c = Some (meta_of bc (clock w (S (S (ticks w))))).
Proof.
  set (t1 := clock w (S (ticks w))). set (t2 := clock w (S (S (ticks w)))).
  set (t3 := clock w (S (S (S (ticks w))))).
  set (sa := Z.of_nat (length ba)). set (sb := Z.of_nat (length bb)).
  set (sc := Z.of_nat (length bc)).
  intros Ha Hab Hac Hbc Hdb Hroom Ht12 Ht23 Hover Hone.
  assert (Hsa : 0 ≤ sa) by apply Nat2Z.is_nonneg.
  assert (Hsb : 0 ≤ sb) by apply Nat2Z.is_nonneg.
  assert (Hsc : 0 ≤ sc) by apply Nat2Z.is_nonneg.
  set (t0 := clock w (ticks w)).
  set (ma := meta_of ba t0). set (mb := meta_of bb t1). set (mc := meta_of bc t2).
  set (ma' := meta_of ba t3).
  set (m1 := ({[ a := ma ]} : gmap string CacheMeta)).
  set (m2 := <[b := mb]> m1).
  set (m3 := <[c := mc]> m2).
  set (m4 := <[a := ma']> (<[c := mc]> ({[ b := mb ]} : gmap string CacheMeta))).
  set (k1 := ({[ a := ba ]} : gmap string (list Byte.byte))).
  set (k2 := <[b := bb]> k1).
  set (k3 := <[c := bc]> k2).
  assert (Hm2b : m1 !! b = None) by (apply lookup_singleton_ne, Hab).
  assert (Hm3c : m2 !! c = None).
  { unfold m2. rewrite lookup_insert_ne by exact Hbc. apply lookup_singleton_ne, Hac. }
  assert (Hk2b : k1 !! b = None) by (apply lookup_singleton_ne, Hab).
  assert (Hk3c : k2 !! c = None).
  { unfold k2. rewrite lookup_insert_ne by exact Hbc. apply lookup_singleton_ne, Hac. }
  assert (H1 : totalSize m1 = sa).
  { unfold totalSize, m1. rewrite map_to_list_singleton. simpl. fold sa. lia. }
  assert (H2 : totalSize m2 = sa + sb).
  { unfold m2. rewrite (totalSize_insert _ _ _ Hm2b), H1. simpl. fold sb. lia. }
  assert (H3 : totalSize m3 = sa + sb + sc).
  { unfold m3. rewrite (totalSize_insert _ _ _ Hm3c), H2. simpl. fold sc. lia. }
  assert (Hm4 : <[a := ma']> m3 = m4).
  { unfold m4, m3, m2, m1. apply map_eq. intros k.
    destruct (decide (k = a)) as [->|Hka]; [rewrite !lookup_insert_eq; reflexivity|].
    rewrite (lookup_insert_ne _ a k) by congruence.
    rewrite (lookup_insert_ne _ a k) by congruence.
    destruct (decide (k = c)) as [->|Hkc]; [rewrite !lookup_insert_eq; reflexivity|].
    rewrite !(lookup_insert_ne _ c k) by congruence.
    destruct (decide (k = b)) as [->|Hkb].
    - rewrite lookup_insert_eq, lookup_singleton_eq. reflexivity.
    - rewrite lookup_insert_ne by congruence.
      rewrite !lookup_singleton_ne by congruence. reflexivity. }
  assert (Hl4 : map_to_list m4 ≡ₚ [(b, mb); (c, mc); (a, ma')]).
  { unfold m4. rewrite map_to_list_insert.
    - rewrite map_to_list_insert by (apply lookup_singleton_ne; congruence).
      rewrite map_to_list_singleton.
      etrans; [apply (Permutation_cons_append [(c, mc); (b, mb)])|].
      apply Permutation_swap.
    - rewrite lookup_insert_ne by congruence. apply lookup_singleton_ne. congruence. }
  assert (Hs4 : PDFCache.sort_by_date (records m4) = [(b, mb); (c, mc); (a, ma')]).
  { apply sorted_perm_strict.
    - apply sort_by_date_sorted.
    - repeat constructor; unfold strictly_older; simpl; lia.
    - rewrite sort_by_date_perm, records_perm. exact Hl4. }
  assert (H4 : totalSize m4 = sa + sb + sc).
  { unfold totalSize. rewrite (sum_sizes_perm _ _ Hl4). simpl. fold sa sb sc. lia. }
  set (w1 := with_db (Some (mkDatabase k1 m1)) (tick w)).
  set (w2 := with_db (Some (mkDatabase k2 m2)) (tick w1)).
  set (w3 := with_db (Some (mkDatabase k3 m3)) (tick w2)).
  set (w4 := with_db (Some (mkDatabase k3 m4)) (tick w3)).
  set (db5 := evict_key b (mkDatabase k3 m4)).
  assert (S1 : PDFCache.setCache a ba w = (Resolved tt, w1)).
  { rewrite (setCache_resolves _ _ _ _ Hdb).
    rewrite written_fresh by apply lookup_empty. cbn [Cache Meta].
    rewrite !insert_empty. fold t0 ma k1 m1.
    rewrite pruned_below by (cbn [Meta]; lia). reflexivity. }
  assert (S2 : PDFCache.setCache b bb w1 = (Resolved tt, w2)).
  { rewrite (setCache_resolves _ _ _ (mkDatabase k1 m1)) by reflexivity.
    rewrite written_fresh by assumption. cbn [Cache Meta].
    change (clock w1 (ticks w1)) with t1. fold mb k2 m2.
    change (PDFCache.MAX_BYTES w1) with (PDFCache.MAX_BYTES w).
    rewrite pruned_below by (cbn [Meta]; lia). reflexivity. }
  assert (S3 : PDFCache.setCache c bc w2 = (Resolved tt, w3)).
  { rewrite (setCache_resolves _ _ _ (mkDatabase k2 m2)) by reflexivity.
    rewrite written_fresh by assumption. cbn [Cache Meta].
    change (clock w2 (ticks w2)) with t2. fold mc k3 m3.
    change (PDFCache.MAX_BYTES w2) with (PDFCache.MAX_BYTES w).
    rewrite pruned_below by (cbn [Meta]; lia). reflexivity. }
  assert (S4 : PDFCache.getCache a w3 = (Resolved (val ba), w4)).
  { rewrite getCache_spec. simpl _db. cbn [Cache].
    assert (Hka : k3 !! a = Some ba).
    { unfold k3, k2, k1. rewrite !lookup_insert_ne by congruence. apply lookup_singleton_eq. }
    rewrite Hka. rewrite forced_nonempty by exact Ha. simpl.
    fold t3 ma'. rewrite Hm4. reflexivity. }
  assert (S5 : PDFCache.prune (with_CacheSize c2 w4)
               = (Resolved tt, with_db (Some db5) (with_CacheSize c2 w4))).
  { rewrite (prune_spec _ (mkDatabase k3 m4)) by reflexivity.
    unfold pruned. cbn [Meta]. rewrite Hs4, H4.
    change (PDFCache.MAX_BYTES (with_CacheSize c2 w4)) with (c2 * 2 ^ 20).
    rewrite evictions_over by exact Hover.
    rewrite evictions_below by (simpl; fold sb; lia). reflexivity. }
  exists (with_db (Some db5) (with_CacheSize c2 w4)), db5.
  split.
  { rewrite (bind_resolved _ _ _ _ _ S1), (bind_resolved _ _ _ _ _ S2),
      (bind_resolved _ _ _ _ _ S3), (bind_resolved _ _ _ _ _ S4).
    unfold mbind, M_bind, configure. exact S5. }
  split; [reflexivity|].
  unfold db5, evict_key. cbn [Cache Meta].
  split; [apply lookup_delete_eq|]. split; [apply lookup_delete_eq|].
  rewrite !lookup_delete_ne by congruence.
  unfold k3, k2, k1, m4.
  split; [rewrite !lookup_insert_ne by congruence; apply lookup_singleton_eq|].
  split; [apply lookup_insert_eq|].
  split; [apply lookup_insert_eq|].
  rewrite lookup_insert_ne by congruence. apply lookup_insert_eq.
Qed.

(** ** The empty string as a key *)

(** With ordinary keys the run evicts the second key. *)
Lemma recency_run_ordinary_keys :
  ∃ w', recency_run "a" "b" "c" (opened 2) = (Resolved tt, w')
    ∧ cache_keys w' = Some (["a"; "c"], ["a"; "c"]).
Proof.
  exists (snd (recency_run "a" "b" "c" (opened 2))).
  split; [apply resolved_eq|]; vm_compute; reflexivity.
Qed.

(** With the empty string for the first key [getCache] does not refresh
    the record of that key, since the forced [set] replaces nothing, and
    [prune] evicts it, the key read last, and keeps the second key. *)
Lemma recency_run_empty_key_evicts_the_key_read_last :
  ∃ w', recency_run EmptyString "b" "c" (opened 2) = (Resolved tt, w')
    ∧ cache_keys w' = Some (["b"; "c"], ["b"; "c"]).
Proof.
  exists (snd (recency_run EmptyString "b" "c" (opened 2))).
  split; [apply resolved_eq|]; vm_compute; reflexivity.
Qed.

(** An empty array is cached under the empty string; the fetch answers
    with one byte.  The first [preload] fetches and resolves, its [setCache]
    replaces nothing, no eviction takes place and the empty array is still
    what is cached; the second [preload] fetches again. *)
Lemma preload_empty_key_fetches_twice :
  let w := with_network (λ _, mkResponse true [Byte.x01]) (opened 1) in
  ∃ w0 w1 w2,
    PDFCache.setCache EmptyString [] w = (Resolved tt, w0)
    ∧ PDFCache.preload EmptyString w0 = (Resolved tt, w1)
    ∧ Cache <$> _db w1 = Some {[ EmptyString := [] ]}
    ∧ fetched w1 = [EmptyString]
    ∧ PDFCache.preload EmptyString w1 = (Resolved tt, w2)
    ∧ Cache <$> _db w2 = Some {[ EmptyString := [] ]}
    ∧ fetched w2 = [EmptyString; EmptyString].
Proof.
  intros w.
  exists (snd (PDFCache.setCache EmptyString [] w)).
  exists (snd ((PDFCache.setCache EmptyString [];; PDFCache.preload EmptyString) w)).
  exists (snd ((PDFCache.setCache EmptyString [];; PDFCache.preload EmptyString;;
                PDFCache.preload EmptyString) w)).
  split_all; vm_compute; reflexivity.
Qed.

(** ** The order of the keys, and the stable sort *)

Lemma units_le_total (a b : list N) : units_le a b = true ∨ units_le b a = true.
Proof.
  revert b; induction a as [|x a IH]; intros [|y b]; simpl; auto.
  destruct (N.ltb_spec x y) as [Hxy|Hxy]; [left; reflexivity|].
  destruct (N.ltb_spec y x) as [Hyx|Hyx]; [right; reflexivity|].
  assert (x = y) as -> by lia. rewrite N.eqb_refl. simpl. apply IH.
Qed.

Lemma key_le_total : Total key_le.
Proof.
  intros a b. unfold key_le.
  destruct (units_le_total (key_units a) (key_units b)) as [H|H]; rewrite H;
    [left|right]; exact I.
Qed.

(** [getAllKeys] lists the keys in ascending order. *)
Lemma getAllKeys_sorted {V : Type} (m : gmap string V) :
  Sorted key_le (IDBHelper.getAllKeys m).
Proof. apply (Sorted_merge_sort _ (Total0 := key_le_total)). Qed.

(** The order is that of the code units, not that of the bytes: U+1F600,
    a pair of surrogates in UTF-16, comes before U+FF21, and a key of
    ASCII characters before both. *)
Lemma getAllKeys_by_code_unit :
  let grinning_face := String.string_of_list_ascii (map Ascii.ascii_of_N [240; 159; 152; 128]%N) in
  let fullwidth_A := String.string_of_list_ascii (map Ascii.ascii_of_N [239; 188; 161]%N) in
  key_units grinning_face = [55357; 56832]%N
  ∧ key_units fullwidth_A = [65313]%N
  ∧ IDBHelper.getAllKeys
      ({[ fullwidth_A := tt; grinning_face := tt; "z" := tt ]} : gmap string unit)
    = ["z"; grinning_face; fullwidth_A].
Proof. intros grinning_face fullwidth_A. split_all; vm_compute; reflexivity. Qed.

(** Before it sorts, [prune] holds the records in the order of the keys. *)
Lemma records_keys (m : gmap string CacheMeta) :
  map fst (records m) = IDBHelper.getAllKeys m.
Proof.
  unfold records.
  assert (H : ∀ ks, (∀ k, k ∈ ks → is_Some (m !! k)) → map fst (entries m ks) = ks).
  { induction ks as [|k ks IH]; intros Hks; [reflexivity|].
    destruct (Hks k) as [v Hv]; [left|].
    unfold entries in *. simpl. rewrite Hv. simpl. f_equal.
    apply IH. intros k' Hk'. apply Hks. right. exact Hk'. }
  apply H. intros k Hk. apply elem_of_getAllKeys, Hk.
Qed.

(** The sort is stable: the records of one date keep the order they had. *)
Lemma insert_by_date_dated (d : Z) (a : string * CacheMeta) (l : list (string * CacheMeta)) :
  List.filter (dated d) (PDFCache.insert_by_date a l) = List.filter (dated d) (a :: l).
Proof.
  induction l as [|b l IH]; [reflexivity|].
  cbn [PDFCache.insert_by_date].
  destruct (dateAccessed (snd a) <=? dateAccessed (snd b)) eqn:Hab; [reflexivity|].
  apply Z.leb_gt in Hab. cbn [List.filter] in *. rewrite IH.
  destruct (dated d b) eqn:Hb, (dated d a) eqn:Ha; try reflexivity.
  unfold dated in Ha, Hb. apply Z.eqb_eq in Ha, Hb. lia.
Qed.

Lemma sort_by_date_stable (d : Z) (l : list (string * CacheMeta)) :
  List.filter (dated d) (PDFCache.sort_by_date l) = List.filter (dated d) l.
Proof.
  induction l as [|a l IH]; [reflexivity|].
  change (PDFCache.sort_by_date (a :: l))
    with (PDFCache.insert_by_date a (PDFCache.sort_by_date l)).
  rewrite insert_by_date_dated. cbn [List.filter]. rewrite IH. reflexivity.
Qed.

(** ** The code over a backend that can fail *)

(** Equal promises, awaited by continuations that agree, give equal
    promises. *)
Lemma bind_ext {A B : Type} (m m' : M A) (k k' : A → M B) (w : World) :
  m w = m' w → (∀ a w', k a w' = k' a w') → (m ≫= k) w = (m' ≫= k') w.
Proof.
  intros Hm Hk. unfold mbind, M_bind. rewrite Hm.
  destruct (m' w) as [[a|e|e] w']; [apply Hk|reflexivity|reflexivity].
Qed.

Lemma try_catch_ext {A : Type} (m m' : M A) (h : error → M A) (w : World) :
  m w = m' w → try_catch m h w = try_catch m' h w.
Proof. intros Hm. unfold try_catch. rewrite Hm. reflexivity. Qed.

Lemma new_Promise_async_ext (m m' : M PDFCache.settle) (w : World) :
  m w = m' w → PDFCache.new_Promise_async m w = PDFCache.new_Promise_async m' w.
Proof. intros Hm. unfold PDFCache.new_Promise_async. rewrite Hm. reflexivity. Qed.

(** Use that the request [op] does not fail in [w]. *)
Ltac works H op w :=
  let Hop := fresh "Hop" in
  pose proof (H op w) as Hop; cbn beta iota in Hop; rewrite Hop; clear Hop.

(** Where no request of IndexedDB fails the code does what it does in
    the first part. *)
Lemma del_reliable (β : Faults) (key : string) (s : storeName) (w : World) :
  storage_reliable β → Unreliable.IDBHelper.del β key s w = IDBHelper.del key s w.
Proof.
  intros H. unfold Unreliable.IDBHelper.del, IDBHelper.del.
  destruct (_db w); [|reflexivity]. works H (store_delete s key) w. reflexivity.
Qed.

Lemma set_reliable (β : Faults) (key : string) (s : storeName) (value : valueOf s)
    (force : bool) (w : World) :
  storage_reliable β →
  Unreliable.IDBHelper.set β key s value force w = IDBHelper.set key s value force w.
Proof.
  intros H. unfold Unreliable.IDBHelper.set, IDBHelper.set.
  destruct (_db w) as [db|] eqn:Hdb; [|reflexivity].
  works H (store_getKey s key) w.
  destruct (IDBHelper.truthy _).
  - destruct force; [|reflexivity]. rewrite (del_reliable β key s w H).
    destruct (IDBHelper.del key s w) as [[[]|e|e] w']; try reflexivity.
    destruct (_db w'); [|reflexivity]. works H (store_add s key) w'. reflexivity.
  - works H (store_add s key) w. reflexivity.
Qed.

Lemma get_reliable (β : Faults) (key : string) (s : storeName) (w : World) :
  storage_reliable β → Unreliable.IDBHelper.get β key s w = IDBHelper.get key s w.
Proof.
  intros H. unfold Unreliable.IDBHelper.get, IDBHelper.get.
  destruct (_db w); [|reflexivity]. works H (store_get s key) w. reflexivity.
Qed.

Lemma keys_reliable (β : Faults) (s : storeName) (w : World) :
  storage_reliable β → Unreliable.IDBHelper.keys β s w = IDBHelper.keys s w.
Proof.
  intros H. unfold Unreliable.IDBHelper.keys, IDBHelper.keys.
  destruct (_db w); [|reflexivity]. works H (store_getAllKeys s) w. reflexivity.
Qed.

Lemma getMeta_reliable (β : Faults) (key : string) (w : World) :
  storage_reliable β → Unreliable.PDFCache.getMeta β key w = PDFCache.getMeta key w.
Proof. intros H. apply try_catch_ext. exact (get_reliable β key META w H). Qed.

Lemma getCache_reliable (β : Faults) (key : string) (w : World) :
  storage_reliable β → Unreliable.PDFCache.getCache β key w = PDFCache.getCache key w.
Proof.
  intros H. apply try_catch_ext, bind_ext; [exact (get_reliable β key CACHE w H)|].
  intros bytes w1. apply bind_ext; [reflexivity|].
  intros now w2. apply bind_ext; [reflexivity|].
  intros len w3. apply bind_ext; [|reflexivity].
  exact (set_reliable β key META _ true w3 H).
Qed.

Lemma readMetas_reliable (β : Faults) (keys : list string) (totalBytes : Z)
    (metas : list (string * CacheMeta)) (w : World) :
  storage_reliable β →
  Unreliable.PDFCache.readMetas β keys totalBytes metas w
  = PDFCache.readMetas keys totalBytes metas w.
Proof.
  intros H. revert totalBytes metas w.
  induction keys as [|key keys IH]; intros totalBytes metas w; [reflexivity|].
  cbn [Unreliable.PDFCache.readMetas PDFCache.readMetas].
  apply bind_ext; [exact (get_reliable β key META w H)|].
  intros [| |m] w'; [reflexivity|reflexivity|apply IH].
Qed.

Lemma evict_reliable (β : Faults) (metas : list (string * CacheMeta)) (totalBytes : Z)
    (w : World) :
  storage_reliable β →
  Unreliable.PDFCache.evict β metas totalBytes w = PDFCache.evict metas totalBytes w.
Proof.
  intros H. revert totalBytes w.
  induction metas as [|next rest IH]; intros totalBytes w; [reflexivity|].
  cbn [Unreliable.PDFCache.evict PDFCache.evict].
  destruct (totalBytes <? PDFCache.MAX_BYTES w); [reflexivity|].
  apply bind_ext; [apply del_reliable, H|].
  intros _ w1. apply bind_ext; [apply del_reliable, H|].
  intros _ w2. apply IH.
Qed.

Lemma prune_reliable (β : Faults) (w : World) :
  storage_reliable β → Unreliable.PDFCache.prune β w = PDFCache.prune w.
Proof.
  intros H. apply bind_ext; [apply keys_reliable, H|].
  intros keys w1. apply bind_ext; [apply readMetas_reliable, H|].
  intros [totalBytes metas] w2. apply evict_reliable, H.
Qed.

Lemma setCache_reliable (β : Faults) (key : string) (bytes : list Byte.byte) (w : World) :
  storage_reliable β →
  Unreliable.PDFCache.setCache β key bytes w = PDFCache.setCache key bytes w.
Proof.
  intros H. apply bind_ext; [reflexivity|].
  intros now w1. apply bind_ext; [exact (set_reliable β key CACHE bytes true w1 H)|].
  intros _ w2. apply bind_ext; [exact (set_reliable β key META _ true w2 H)|].
  intros _ w3. apply prune_reliable, H.
Qed.

Lemma storage_reliable_reliable : storage_reliable reliable.
Proof. intros [] w; exact I || reflexivity. Qed.

(** Over the backend in which nothing fails [preload] is the [preload]
    of the first part. *)
Lemma preload_reliable (key : string) (w : World) :
  Unreliable.PDFCache.preload reliable key w = PDFCache.preload key w.
Proof.
  apply new_Promise_async_ext, bind_ext;
    [apply getCache_reliable, storage_reliable_reliable|].
  intros cachedBytes w1. apply bind_ext; [reflexivity|].
  intros [|] w2; [reflexivity|].
  apply bind_ext; [reflexivity|].
  intros response w3. destruct (ok response); [|reflexivity].
  unfold mbind at 1, M_bind at 1. cbn [Unreliable.await_arrayBuffer reliable].
  destruct (0 <? Z.of_nat (length (arrayBuffer response))); [|reflexivity].
  apply bind_ext; [apply setCache_reliable, storage_reliable_reliable|reflexivity].
Qed.

(** How a forced [set] settles on an opened helper, and what it leaves. *)
Lemma Unreliable_set_force (β : Faults) (key : string) (s : storeName) (value : valueOf s)
    (w : World) (db : Database) :
  _db w = Some db →
  ∃ db',
    Unreliable.IDBHelper.set β key s value true w
    = (if β (store_getKey s key) w then Rejected DOMException
       else if IDBHelper.truthy (IDBHelper.getKey (objectStore s db) key)
               && β (store_delete s key) w
            then Unsettled DOMException
            else Resolved tt,
       with_db (Some db') w)
    ∧ ∀ s', s' ≠ s → objectStore s' db' = objectStore s' db.
Proof.
  intros Hdb. unfold Unreliable.IDBHelper.set, Unreliable.IDBHelper.del. rewrite Hdb.
  assert (Hother : ∀ m s', s' ≠ s → objectStore s' (withStore s db m) = objectStore s' db)
    by (intros m s' Hs; destruct s, s'; try reflexivity; contradiction).
  destruct (β (store_getKey s key) w).
  { exists db. rewrite (with_db_id _ _ Hdb). split; [reflexivity|]. reflexivity. }
  destruct (IDBHelper.truthy _); cbn [andb].
  - destruct (β (store_delete s key) w).
    + exists db. rewrite (with_db_id _ _ Hdb). split; reflexivity.
    + cbn [_db with_db].
      destruct (β (store_add s key) _).
      * eexists. split; [reflexivity|]. intros s' Hs. apply Hother, Hs.
      * eexists. cbn [with_db _db CacheSize clock ticks network fetched].
        rewrite withStore_withStore. split; [reflexivity|].
        intros s' Hs. apply Hother, Hs.
  - destruct (β (store_add s key) w).
    + exists db. rewrite (with_db_id _ _ Hdb). split; reflexivity.
    + eexists. split; [reflexivity|]. intros s' Hs. apply Hother, Hs.
Qed.

(** [getCache] over any backend: the reading of [Cache], the clock, and
    the forced [set] in [Meta]. *)
Lemma Unreliable_getCache_spec (β : Faults) (key : string) (w : World) :
  Unreliable.PDFCache.getCache β key w
  = match _db w with
    | None => (Resolved null, w)
    | Some db =>
        if β (store_get CACHE key) w then (Resolved null, w)
        else
          match Cache db !! key with
          | None => (Resolved null, tick w)
          | Some bytes =>
              match Unreliable.IDBHelper.set β key META
                      (meta_of bytes (clock w (ticks w))) true (tick w) with
              | (Resolved _, w') => (Resolved (val bytes), w')
              | (Rejected _, w') => (Resolved null, w')
              | (Unsettled e, w') => (Unsettled e, w')
              end
          end
    end.
Proof.
  unfold Unreliable.PDFCache.getCache, try_catch, mbind, M_bind, Unreliable.IDBHelper.get.
  destruct (_db w) as [db|] eqn:Hdb; [|reflexivity].
  simpl. destruct (β (store_get CACHE key) w); [reflexivity|].
  destruct (Cache db !! key) as [bytes|]; [|reflexivity].
  simpl. unfold Unreliable.PDFCache.setMeta, meta_of.
  destruct (Unreliable.IDBHelper.set β key META _ true (tick w)) as [[[]|e|e] w'];
    reflexivity.
Qed.

(** Whatever fails, [getCache] settles with a world in which [Cache], the
    setting, the clock and the network are as they were, and nothing was
    fetched. *)
Lemma Unreliable_getCache_world (β : Faults) (key : string) (w : World) :
  Cache <$> _db (snd (Unreliable.PDFCache.getCache β key w)) = Cache <$> _db w
  ∧ network (snd (Unreliable.PDFCache.getCache β key w)) = network w
  ∧ fetched (snd (Unreliable.PDFCache.getCache β key w)) = fetched w.
Proof.
  rewrite Unreliable_getCache_spec.
  destruct (_db w) as [db|] eqn:Hdb; [|simpl; rewrite Hdb; auto].
  destruct (β (store_get CACHE key) w); [simpl; rewrite Hdb; auto|].
  destruct (Cache db !! key) as [bytes|]; [|simpl; rewrite Hdb; auto].
  destruct (Unreliable_set_force β key META (meta_of bytes (clock w (ticks w))) (tick w) db Hdb)
    as (db' & Hset & Hother).
  rewrite Hset. specialize (Hother CACHE ltac:(discriminate)). cbn [objectStore] in Hother.
  destruct (β (store_getKey META key) (tick w)); [simpl; rewrite Hother; auto|].
  destruct (_ && _); simpl; rewrite Hother; auto.
Qed.

(** The slip in the forced [set]: when the request to delete the old
    record fails, the promise of [del] rejects, nothing handles the
    rejection, and [getCache] never settles. *)
Lemma getCache_pending_when_delete_fails (β : Faults) (key : string) (w : World)
    (db : Database) (bytes : list Byte.byte) (meta : CacheMeta) :
  key ≠ EmptyString →
  _db w = Some db → Cache db !! key = Some bytes → Meta db !! key = Some meta →
  β (store_get CACHE key) w = false →
  β (store_getKey META key) (tick w) = false →
  β (store_delete META key) (tick w) = true →
  Unreliable.PDFCache.getCache β key w = (Unsettled DOMException, tick w).
Proof.
  intros Hne Hdb Hc Hm Hget HgetKey Hdel.
  rewrite Unreliable_getCache_spec, Hdb, Hget, Hc.
  unfold Unreliable.IDBHelper.set, Unreliable.IDBHelper.del. cbn [_db tick].
  rewrite Hdb, HgetKey, truthy_getKey.
  change (valueOf META) with CacheMeta. change (objectStore META db) with (Meta db).
  rewrite Hm.
  apply String.eqb_neq in Hne. rewrite Hne. cbn [negb]. rewrite Hdel. reflexivity.
Qed.

(** [preload] over any backend, once [getCache] has answered with nothing
    that can be used: the fetch, the reading of the body and [setCache]. *)
Lemma Unreliable_preload_miss (β : Faults) (key : string) (w w1 : World)
    (r : js (list Byte.byte)) :
  Unreliable.PDFCache.getCache β key w = (Resolved r, w1) →
  r = null ∨ r = val [] →
  Unreliable.PDFCache.preload β key w
  = let w2 := note_fetch key w1 in
    if β (network_fetch key) w1 then (Unsettled TypeError, w2)
    else if ok (network w1 key) then
      if β (response_arrayBuffer key) w2 then (Unsettled TypeError, w2)
      else if 0 <? Z.of_nat (length (arrayBuffer (network w1 key))) then
        match Unreliable.PDFCache.setCache β key (arrayBuffer (network w1 key)) w2 with
        | (Resolved _, w') => (Resolved tt, w')
        | (Rejected e, w') => (Unsettled e, w')
        | (Unsettled e, w') => (Unsettled e, w')
        end
      else (Rejected Fetch_failed, w2)
    else (Rejected Fetch_failed, w2).
Proof.
  intros Hg Hr. unfold Unreliable.PDFCache.preload, PDFCache.new_Promise_async, mbind, M_bind.
  rewrite Hg. cbv zeta.
  assert (Hn : PDFCache.nonempty r w1 = (Resolved false, w1))
    by (destruct Hr as [-> | ->]; reflexivity).
  rewrite Hn. unfold Unreliable.fetch.
  destruct (β (network_fetch key) w1); [reflexivity|].
  destruct (ok (network w1 key)); [|reflexivity].
  unfold Unreliable.await_arrayBuffer.
  destruct (β (response_arrayBuffer key) (note_fetch key w1)); [reflexivity|].
  destruct (0 <? Z.of_nat (length (arrayBuffer (network w1 key)))); [|reflexivity].
  destruct (Unreliable.PDFCache.setCache β key _ _) as [[[]|e|e] w']; reflexivity.
Qed.

(** * The claims *)

(** C1.  Whenever a run of [prune] and [setCache] calls has completed, its
    last call being either of the two, the sizes recorded in [Meta] add up
    to at most the budget, or [Meta] holds no record; with a budget that is
    not negative the total is at most the budget in both cases.  A single
    [prune] from any state is the run with no call before it, and a
    sequence of [setCache] calls is a run of such calls. *)
Theorem prune_keeps_total_within_budget (cs : list call) (c : call) (w w' : World) :
  run_calls (cs ++ [c]) w = (Resolved tt, w') →
  ∃ db', _db w' = Some db'
    ∧ (totalSize (Meta db') ≤ PDFCache.MAX_BYTES w' ∨ Meta db' = ∅)
    ∧ (0 ≤ CacheSize w' → totalSize (Meta db') ≤ PDFCache.MAX_BYTES w').
Proof.
  intros Hrun. apply run_calls_snoc in Hrun as (w1 & _ & Hc).
  apply run_call_resolved in Hc as (db' & Hdb' & Hsize & db & ->).
  exists (pruned (PDFCache.MAX_BYTES w1) db). split; [exact Hdb'|].
  assert (Hmax : PDFCache.MAX_BYTES w' = PDFCache.MAX_BYTES w1)
    by (unfold PDFCache.MAX_BYTES; rewrite Hsize; reflexivity).
  rewrite Hmax.
  destruct (pruned_within (PDFCache.MAX_BYTES w1) db) as [Hlt|Hempty].
  - split; [left|intros _]; lia.
  - split; [right; exact Hempty|].
    intros Hpos. rewrite Hempty, totalSize_empty.
    unfold PDFCache.MAX_BYTES. rewrite <- Hsize. lia.
Qed.

Lemma prune_keeps_total_within_budget_witness :
  let w := opened 1 in
  let cs := [call_setCache "a" [Byte.x01; Byte.x02]] in
  let c := call_setCache "b" [Byte.x03] in
  ∃ w', run_calls (cs ++ [c]) w = (Resolved tt, w')
    ∧ ∃ db', _db w' = Some db'
        ∧ (totalSize (Meta db') ≤ PDFCache.MAX_BYTES w' ∨ Meta db' = ∅)
        ∧ (0 ≤ CacheSize w' → totalSize (Meta db') ≤ PDFCache.MAX_BYTES w').
Proof.
  intros w cs c. exists (snd (run_calls (cs ++ [c]) w)).
  split; [vm_compute; reflexivity|].
  apply (prune_keeps_total_within_budget cs c w). vm_compute. reflexivity.
Defined.

(** C2, as stated, fails: with a budget of one mebibyte and a single entry
    of exactly one mebibyte the total equals the budget, and [prune] deletes
    the entry from [Cache] and from [Meta]. *)
Lemma prune_at_exact_budget_deletes :
  let db := mkDatabase {[ "a" := MiB ]} {[ "a" := meta_of MiB 0 ]} in
  let w := with_db (Some db) (opened 1) in
  totalSize (Meta db) = PDFCache.MAX_BYTES w
  ∧ Cache db !! "a" = Some MiB
  ∧ ∃ w' db', PDFCache.prune w = (Resolved tt, w') ∧ _db w' = Some db'
      ∧ Cache db' !! "a" = None ∧ Meta db' !! "a" = None.
Proof.
  split; [vm_compute; reflexivity|].
  split; [reflexivity|].
  eexists _, _. split; [vm_compute; reflexivity|].
  split; [reflexivity|]. split; reflexivity.
Qed.

(** C2, amended.  [prune] deletes while the running total is at or above
    the budget: what it deletes is a prefix [gone] of the sorted records,
    every deletion is made with a running total that is not below the
    budget, and the pass stops at the first running total below the budget
    or at the end of the records.  A total below the budget deletes
    nothing. *)
Theorem prune_deletes_while_not_below_budget (w : World) (db : Database) :
  _db w = Some db →
  ∃ gone kept,
    PDFCache.sort_by_date (records (Meta db)) = gone ++ kept
    ∧ PDFCache.prune w = (Resolved tt, with_db (Some (evict_keys (map fst gone) db)) w)
    ∧ (∀ n, (n < length gone)%nat →
         PDFCache.MAX_BYTES w ≤ totalSize (Meta db) - sum_sizes (take n gone))
    ∧ (kept = [] ∨ totalSize (Meta db) - sum_sizes gone < PDFCache.MAX_BYTES w)
    ∧ (totalSize (Meta db) < PDFCache.MAX_BYTES w →
         gone = [] ∧ PDFCache.prune w = (Resolved tt, w)).
Proof.
  intros Hdb.
  set (l := PDFCache.sort_by_date (records (Meta db))).
  set (gone := evictions (PDFCache.MAX_BYTES w) l (totalSize (Meta db))).
  destruct (evictions_prefix (PDFCache.MAX_BYTES w) l (totalSize (Meta db))) as [kept Hk].
  fold gone in Hk. exists gone, kept.
  split; [exact Hk|].
  split; [apply prune_spec, Hdb|].
  split; [intros n Hn; apply evictions_while_over, Hn|].
  split.
  - destruct (evictions_stop (PDFCache.MAX_BYTES w) l (totalSize (Meta db))) as [Hall|Hlt].
    + left. fold gone in Hall. rewrite Hall in Hk.
      rewrite <- (app_nil_r l) in Hk at 1. apply app_inv_head in Hk. congruence.
    + right. exact Hlt.
  - intros Hlt. split; [apply evictions_below, Hlt|].
    rewrite (prune_spec _ _ Hdb), pruned_below by exact Hlt.
    rewrite (with_db_id _ _ Hdb). reflexivity.
Qed.

Lemma prune_deletes_while_not_below_budget_witness :
  let db := mkDatabase {[ "a" := MiB; "b" := [Byte.x01] ]}
                       {[ "a" := meta_of MiB 0; "b" := meta_of [Byte.x01] 1 ]} in
  let w := with_db (Some db) (opened 1) in
  ∃ gone kept,
    PDFCache.sort_by_date (records (Meta db)) = gone ++ kept
    ∧ PDFCache.prune w = (Resolved tt, with_db (Some (evict_keys (map fst gone) db)) w)
    ∧ (∀ n, (n < length gone)%nat →
         PDFCache.MAX_BYTES w ≤ totalSize (Meta db) - sum_sizes (take n gone))
    ∧ (kept = [] ∨ totalSize (Meta db) - sum_sizes gone < PDFCache.MAX_BYTES w)
    ∧ (totalSize (Meta db) < PDFCache.MAX_BYTES w →
         gone = [] ∧ PDFCache.prune w = (Resolved tt, w)).
Proof.
  intros db w. apply (prune_deletes_while_not_below_budget w db). reflexivity.
Defined.

(** C3, as stated, fails: when the four accesses fall in the same
    millisecond the dates are equal, the stable sort keeps the order of the
    keys, and [prune] evicts the first key, not the second. *)
Lemma recency_same_millisecond_evicts_first_key :
  ∃ w', recency_run "a" "b" "c" (frozen 2) = (Resolved tt, w')
    ∧ cache_keys w' = Some (["b"; "c"], ["b"; "c"]).
Proof.
  exists (snd (recency_run "a" "b" "c" (frozen 2))).
  split; [apply resolved_eq|]; vm_compute; reflexivity.
Qed.

(** C3, amended.  [prune] sorts the records of [Meta] by date of access,
    oldest first, and deletes a prefix of the sorted records, so whatever
    goes is at least as old as whatever stays.  The sort is stable: the
    records of one date stay in the order in which [keys] has listed them,
    which is the ascending order of the keys.  In particular, when the
    clock readings taken by [setCache (b)], [setCache (c)] and
    [getCache (a)] increase strictly, and [a] is not the empty string:
    after [setCache] of [a], [b], [c] in that order on an empty cache, with
    nothing evicted on the way, and [getCache (a)], a [prune] that has to
    evict one entry deletes the entry of [b] from [Cache] and from [Meta]
    and leaves those of [a] and [c]. *)
Theorem prune_evicts_least_recently_accessed (a b c : string) (ba bb bc : list Byte.byte)
    (w : World) (c2 : Z) :
  a ≠ EmptyString → a ≠ b → a ≠ c → b ≠ c →
  _db w = Some (mkDatabase ∅ ∅) →
  Z.of_nat (length ba) + Z.of_nat (length bb) + Z.of_nat (length bc) < PDFCache.MAX_BYTES w →
  clock w (S (ticks w)) < clock w (S (S (ticks w))) →
  clock w (S (S (ticks w))) < clock w (S (S (S (ticks w)))) →
  c2 * 2 ^ 20 ≤ Z.of_nat (length ba) + Z.of_nat (length bb) + Z.of_nat (length bc) →
  Z.of_nat (length ba) + Z.of_nat (length bc) < c2 * 2 ^ 20 →
  (∀ w0 db0, _db w0 = Some db0 →
     ∃ gone kept,
       PDFCache.sort_by_date (records (Meta db0)) = gone ++ kept
       ∧ StronglySorted older (gone ++ kept)
       ∧ gone ++ kept ≡ₚ map_to_list (Meta db0)
       ∧ PDFCache.prune w0 = (Resolved tt, with_db (Some (evict_keys (map fst gone) db0)) w0)
       ∧ (∀ x y, x ∈ gone → y ∈ kept → older x y)
       ∧ (∀ d, List.filter (dated d) (gone ++ kept)
               = List.filter (dated d) (records (Meta db0)))
       ∧ map fst (records (Meta db0)) = IDBHelper.getAllKeys (Meta db0)
       ∧ Sorted key_le (IDBHelper.getAllKeys (Meta db0)))
  ∧ ∃ w' db',
      (PDFCache.setCache a ba;; PDFCache.setCache b bb;; PDFCache.setCache c bc;;
       PDFCache.getCache a;; configure c2;; PDFCache.prune) w = (Resolved tt, w')
      ∧ _db w' = Some db'
      ∧ Cache db' !! b = None ∧ Meta db' !! b = None
      ∧ Cache db' !! a = Some ba
      ∧ Meta db' !! a = Some (meta_of ba (clock w (S (S (S (ticks w))))))
      ∧ Cache db' !! c = Some bc
      ∧ Meta db' !! c = Some (meta_of bc (clock w (S (S (ticks w))))).
Proof.
  intros Ha Hab Hac Hbc Hdb Hroom Ht12 Ht23 Hover Hone. split.
  - intros w0 db0 Hdb0.
    destruct (prune_evicts_oldest w0 db0 Hdb0) as (gone & kept & Hs & Hsorted & Hperm & Hp & Ho).
    exists gone, kept. split_all; try assumption.
    + intros d. rewrite <- Hs. apply sort_by_date_stable.
    + apply records_keys.
    + apply getAllKeys_sorted.
  - apply recency_scenario; assumption.
Qed.

Lemma prune_evicts_least_recently_accessed_witness :
  (∀ w0 db0, _db w0 = Some db0 →
     ∃ gone kept,
       PDFCache.sort_by_date (records (Meta db0)) = gone ++ kept
       ∧ StronglySorted older (gone ++ kept)
       ∧ gone ++ kept ≡ₚ map_to_list (Meta db0)
       ∧ PDFCache.prune w0 = (Resolved tt, with_db (Some (evict_keys (map fst gone) db0)) w0)
       ∧ (∀ x y, x ∈ gone → y ∈ kept → older x y)
       ∧ (∀ d, List.filter (dated d) (gone ++ kept)
               = List.filter (dated d) (records (Meta db0)))
       ∧ map fst (records (Meta db0)) = IDBHelper.getAllKeys (Meta db0)
       ∧ Sorted key_le (IDBHelper.getAllKeys (Meta db0)))
  ∧ ∃ w' db',
      (PDFCache.setCache "a" block;; PDFCache.setCache "b" block;; PDFCache.setCache "c" block;;
       PDFCache.getCache "a";; configure 1;; PDFCache.prune) (opened 2) = (Resolved tt, w')
      ∧ _db w' = Some db'
      ∧ Cache db' !! "b" = None ∧ Meta db' !! "b" = None
      ∧ Cache db' !! "a" = Some block
      ∧ Meta db' !! "a" = Some (meta_of block (clock (opened 2) (S (S (S (ticks (opened 2)))))))
      ∧ Cache db' !! "c" = Some block
      ∧ Meta db' !! "c" = Some (meta_of block (clock (opened 2) (S (S (ticks (opened 2)))))).
Proof.
  apply (prune_evicts_least_recently_accessed "a" "b" "c" block block block (opened 2) 1).
  - discriminate.
  - discriminate.
  - discriminate.
  - discriminate.
  - reflexivity.
  - vm_compute. reflexivity.
  - vm_compute. reflexivity.
  - vm_compute. reflexivity.
  - vm_compute. discriminate.
  - vm_compute. reflexivity.
Defined.

(** C4.  On an opened cache [setCache (key, bytes)] is the forced write
    of [bytes] in [Cache], the forced write in [Meta] of the record of their
    length and of the reading of the clock, and then [prune] on what the
    two writes have left; and a [getCache (key)] that answers with bytes
    answers with the bytes that [Cache] holds, leaves [Cache] alone and
    makes the forced write in [Meta] of the record of their length and of
    the reading of the clock.  For a key other than the empty string, and
    for a key that the store does not hold, a forced write leaves the new
    value under the key.  At the empty string, when the store holds it, the
    forced write leaves the store as it was, with the old bytes and the old
    record: there the code does not do what the claim says. *)
Theorem setCache_and_getCache_force_write (key : string) (bytes : list Byte.byte)
    (w : World) (db : Database) :
  _db w = Some db →
  PDFCache.setCache key bytes w
  = PDFCache.prune (with_db (Some (written key bytes (clock w (ticks w)) db)) (tick w))
  ∧ (key ≠ EmptyString ∨ Cache db !! key = None →
       Cache (written key bytes (clock w (ticks w)) db) = <[key := bytes]> (Cache db))
  ∧ (key ≠ EmptyString ∨ Meta db !! key = None →
       Meta (written key bytes (clock w (ticks w)) db)
       = <[key := meta_of bytes (clock w (ticks w))]> (Meta db))
  ∧ (key = EmptyString → is_Some (Cache db !! key) →
       Cache (written key bytes (clock w (ticks w)) db) = Cache db)
  ∧ (key = EmptyString → is_Some (Meta db !! key) →
       Meta (written key bytes (clock w (ticks w)) db) = Meta db)
  ∧ (∀ stored w',
       PDFCache.getCache key w = (Resolved (val stored), w') → Cache db !! key = Some stored)
  ∧ (∀ stored, Cache db !! key = Some stored →
       ∃ db2,
         PDFCache.getCache key w = (Resolved (val stored), with_db (Some db2) (tick w))
         ∧ Cache db2 = Cache db
         ∧ (key ≠ EmptyString ∨ Meta db !! key = None →
              Meta db2 = <[key := meta_of stored (clock w (ticks w))]> (Meta db))
         ∧ (key = EmptyString → is_Some (Meta db !! key) → Meta db2 = Meta db)).
Proof.
  intros Hdb.
  assert (Hwrite : ∀ (s : storeName) (v : valueOf s) (d : Database),
            key ≠ EmptyString ∨ objectStore s d !! key = None →
            objectStore s (forced key s v d) = <[key := v]> (objectStore s d)).
  { intros s v d [Hne|Hnew].
    - rewrite (forced_nonempty key s v d Hne). apply objectStore_withStore.
    - rewrite (forced_fresh key s v d Hnew). apply objectStore_withStore. }
  assert (Hkeep : ∀ (s : storeName) (v : valueOf s) (d : Database),
            key = EmptyString → is_Some (objectStore s d !! key) →
            objectStore s (forced key s v d) = objectStore s d).
  { intros s v d -> [old Hold]. rewrite (forced_empty_key s v old d Hold). reflexivity. }
  split; [apply setCache_spec, Hdb|].
  split; [intros H; exact (Hwrite CACHE bytes db H)|].
  split; [intros H; exact (Hwrite META (meta_of bytes (clock w (ticks w)))
                             (forced key CACHE bytes db) H)|].
  split; [intros Hk H; exact (Hkeep CACHE bytes db Hk H)|].
  split; [intros Hk H; exact (Hkeep META (meta_of bytes (clock w (ticks w)))
                                (forced key CACHE bytes db) Hk H)|].
  split.
  - intros stored w'. rewrite getCache_spec, Hdb.
    destruct (Cache db !! key) as [b|]; [|discriminate]. intros [= -> _]. reflexivity.
  - intros stored Hstored. rewrite getCache_spec, Hdb, Hstored.
    eexists. split; [reflexivity|]. split; [reflexivity|].
    split; [intros H; exact (Hwrite META (meta_of stored (clock w (ticks w))) db H)|].
    intros Hk H. exact (Hkeep META (meta_of stored (clock w (ticks w))) db Hk H).
Qed.

Lemma setCache_and_getCache_force_write_witness :
  let db := mkDatabase {[ EmptyString := [Byte.x01] ]}
                       {[ EmptyString := meta_of [Byte.x01] 0 ]} in
  let w := with_db (Some db) (tick (opened 1)) in
  let key := EmptyString in
  let bytes := [Byte.x02; Byte.x03] in
  PDFCache.setCache key bytes w
  = PDFCache.prune (with_db (Some (written key bytes (clock w (ticks w)) db)) (tick w))
  ∧ (key ≠ EmptyString ∨ Cache db !! key = None →
       Cache (written key bytes (clock w (ticks w)) db) = <[key := bytes]> (Cache db))
  ∧ (key ≠ EmptyString ∨ Meta db !! key = None →
       Meta (written key bytes (clock w (ticks w)) db)
       = <[key := meta_of bytes (clock w (ticks w))]> (Meta db))
  ∧ (key = EmptyString → is_Some (Cache db !! key) →
       Cache (written key bytes (clock w (ticks w)) db) = Cache db)
  ∧ (key = EmptyString → is_Some (Meta db !! key) →
       Meta (written key bytes (clock w (ticks w)) db) = Meta db)
  ∧ (∀ stored w',
       PDFCache.getCache key w = (Resolved (val stored), w') → Cache db !! key = Some stored)
  ∧ (∀ stored, Cache db !! key = Some stored →
       ∃ db2,
         PDFCache.getCache key w = (Resolved (val stored), with_db (Some db2) (tick w))
         ∧ Cache db2 = Cache db
         ∧ (key ≠ EmptyString ∨ Meta db !! key = None →
              Meta db2 = <[key := meta_of stored (clock w (ticks w))]> (Meta db))
         ∧ (key = EmptyString → is_Some (Meta db !! key) → Meta db2 = Meta db)).
Proof.
  intros db w key bytes. apply (setCache_and_getCache_force_write key bytes w db).
  reflexivity.
Defined.

(** C5 at the empty string, which is a key like any other: after
    [set (key, v1)] a forced [set (key, v2)] resolves and [get] still
    answers [v1]; and an unforced [set (key, v2)] resolves as well, with no
    error at all. *)
Theorem forced_set_on_empty_key_keeps_old_value (s : storeName) (v1 v2 : valueOf s) :
  let w1 := with_db (Some (withStore s (mkDatabase ∅ ∅) {[ EmptyString := v1 ]})) (opened 1) in
  IDBHelper.set EmptyString s v1 false (opened 1) = (Resolved tt, w1)
  ∧ IDBHelper.set EmptyString s v2 true w1 = (Resolved tt, w1)
  ∧ IDBHelper.get EmptyString s w1 = (Resolved (val v1), w1)
  ∧ IDBHelper.set EmptyString s v2 false w1 = (Resolved tt, w1).
Proof.
  destruct s; repeat split; reflexivity.
Qed.

(** C6.  When [preload (key)] comes to fetch, that is when [getCache] has
    answered [null] or an empty array, and the fetch fails, [setCache] is
    not called and [Cache] is as it was: the world is the one that
    [getCache] left, with the fetch noted.  When the response is not ok, or
    has an empty body, [preload] rejects with 'Fetch failed.'.  But when
    [fetch] itself rejects, or the reading of the body does, the error is
    thrown inside the [async] executor and [preload] never settles: there
    the code does not do what the claim says. *)
Theorem preload_on_failed_fetch (β : Faults) (key : string) (w w1 : World)
    (r : js (list Byte.byte)) :
  Unreliable.PDFCache.getCache β key w = (Resolved r, w1) →
  r = null ∨ r = val [] →
  Cache <$> _db (note_fetch key w1) = Cache <$> _db w
  ∧ (β (network_fetch key) w1 = true →
       Unreliable.PDFCache.preload β key w = (Unsettled TypeError, note_fetch key w1))
  ∧ (β (network_fetch key) w1 = false →
       ok (network w key) = false →
       Unreliable.PDFCache.preload β key w = (Rejected Fetch_failed, note_fetch key w1))
  ∧ (β (network_fetch key) w1 = false →
       ok (network w key) = true →
       β (response_arrayBuffer key) (note_fetch key w1) = true →
       Unreliable.PDFCache.preload β key w = (Unsettled TypeError, note_fetch key w1))
  ∧ (β (network_fetch key) w1 = false →
       ok (network w key) = true →
       β (response_arrayBuffer key) (note_fetch key w1) = false →
       arrayBuffer (network w key) = [] →
       Unreliable.PDFCache.preload β key w = (Rejected Fetch_failed, note_fetch key w1)).
Proof.
  intros Hg Hr.
  destruct (Unreliable_getCache_world β key w) as (Hcache & Hnet & _).
  rewrite Hg in Hcache, Hnet. cbn [snd] in Hcache, Hnet.
  rewrite (Unreliable_preload_miss β key w w1 r Hg Hr). cbv zeta. rewrite Hnet.
  split; [exact Hcache|].
  split; [intros ->; reflexivity|].
  split; [intros -> ->; reflexivity|].
  split; [intros -> -> ->; reflexivity|].
  intros -> -> -> ->. reflexivity.
Qed.

Lemma preload_on_failed_fetch_witness :
  let w := with_network (λ _, mkResponse true [Byte.x01]) (opened 1) in
  let w1 := tick w in
  Cache <$> _db (note_fetch "a" w1) = Cache <$> _db w
  ∧ (offline (network_fetch "a") w1 = true →
       Unreliable.PDFCache.preload offline "a" w = (Unsettled TypeError, note_fetch "a" w1))
  ∧ (offline (network_fetch "a") w1 = false →
       ok (network w "a") = false →
       Unreliable.PDFCache.preload offline "a" w = (Rejected Fetch_failed, note_fetch "a" w1))
  ∧ (offline (network_fetch "a") w1 = false →
       ok (network w "a") = true →
       offline (response_arrayBuffer "a") (note_fetch "a" w1) = true →
       Unreliable.PDFCache.preload offline "a" w = (Unsettled TypeError, note_fetch "a" w1))
  ∧ (offline (network_fetch "a") w1 = false →
       ok (network w "a") = true →
       offline (response_arrayBuffer "a") (note_fetch "a" w1) = false →
       arrayBuffer (network w "a") = [] →
       Unreliable.PDFCache.preload offline "a" w = (Rejected Fetch_failed, note_fetch "a" w1)).
Proof.
  intros w w1. apply (preload_on_failed_fetch offline "a" w w1 null).
  - reflexivity.
  - left. reflexivity.
Defined.




(** C8, as stated, fails: [getMeta] answers with whatever record [Meta]
    holds, here one with a negative size, and not with [null]; for a key
    without a record it answers [undefined], the result of the request,
    where it answers [null] on a helper that was never opened. *)
Lemma getMeta_returns_what_is_stored :
  let db := mkDatabase ∅ {[ "a" := mkMeta (-1) 0 ]} in
  let w := with_db (Some db) (opened 1) in
  PDFCache.getMeta "a" w = (Resolved (val (mkMeta (-1) 0)), w)
  ∧ PDFCache.getMeta "b" w = (Resolved undefined, w)
  ∧ PDFCache.getMeta "b" (with_db None w) = (Resolved null, with_db None w).
Proof. intros db w. split_all; reflexivity. Qed.

(** C8, amended.  Whatever the backend does, [getMeta] resolves and
    [getCache] does not reject.  [getMeta] resolves with [null] when the
    helper was never opened or the reading of the record fails, and with
    the record as it is stored, with no check of any kind, when there is
    one.  [getCache], when the request that deletes the old record in the
    forced write does not fail, resolves: with [null] when the helper was
    never opened, when the reading of the bytes fails, when the key has no
    bytes and when the write of the record is rejected, and else with the
    bytes as they are stored. *)
Theorem getMeta_and_getCache_never_reject (β : Faults) (key : string) (w : World) :
  (∃ r, Unreliable.PDFCache.getMeta β key w = (Resolved r, w)
     ∧ (_db w = None ∨ β (store_get META key) w = true → r = null)
     ∧ (∀ db meta,
          _db w = Some db → β (store_get META key) w = false → Meta db !! key = Some meta →
          r = val meta))
  ∧ (∀ e, fst (Unreliable.PDFCache.getCache β key w) ≠ Rejected e)
  ∧ (β (store_delete META key) (tick w) = false →
     ∃ r w', Unreliable.PDFCache.getCache β key w = (Resolved r, w')
       ∧ (β (store_get CACHE key) w = true
          ∨ β (store_getKey META key) (tick w) = true
          ∨ (∀ db, _db w = Some db → Cache db !! key = None) → r = null)
       ∧ (∀ db bytes,
            _db w = Some db → β (store_get CACHE key) w = false →
            β (store_getKey META key) (tick w) = false → Cache db !! key = Some bytes →
            r = val bytes)).
Proof.
  split; [|split].
  - unfold Unreliable.PDFCache.getMeta, try_catch, Unreliable.IDBHelper.get.
    destruct (_db w) as [db|].
    + destruct (β (store_get META key) w).
      * exists null. split; [reflexivity|]. split; [reflexivity|].
        intros db' meta' _ [=].
      * simpl. destruct (Meta db !! key) as [meta|] eqn:Hk.
        -- exists (val meta). split; [reflexivity|].
           split; [intros [[=]|[=]]|]. intros db' meta' [= <-] _ Hk'. congruence.
        -- exists undefined. split; [reflexivity|].
           split; [intros [[=]|[=]]|]. intros db' meta' [= <-] _ Hk'. congruence.
    + exists null. split; [reflexivity|]. split; [reflexivity|]. discriminate.
  - intros e. rewrite Unreliable_getCache_spec.
    destruct (_db w) as [db|]; [|discriminate].
    destruct (β (store_get CACHE key) w); [discriminate|].
    destruct (Cache db !! key) as [bytes|]; [|discriminate].
    destruct (Unreliable.IDBHelper.set β key META _ true (tick w)) as [[[]|e'|e'] w'];
      discriminate.
  - intros Hdel. rewrite Unreliable_getCache_spec.
    destruct (_db w) as [db|] eqn:Hdb.
    + destruct (β (store_get CACHE key) w) eqn:Hget.
      * exists null, w. split; [reflexivity|]. split; [reflexivity|].
        intros db' bytes' _ [=].
      * destruct (Cache db !! key) as [bytes|] eqn:Hk.
        -- destruct (Unreliable_set_force β key META (meta_of bytes (clock w (ticks w)))
                       (tick w) db Hdb) as (db' & Hset & _).
           rewrite Hset, Hdel, andb_false_r.
           destruct (β (store_getKey META key) (tick w)) eqn:HgetKey.
           ++ eexists null, _. split; [reflexivity|]. split; [reflexivity|].
              intros db0 bytes0 _ _ [=].
           ++ eexists (val bytes), _. split; [reflexivity|]. split.
              ** intros [[=]|[[=]|Habsent]]. specialize (Habsent db eq_refl). congruence.
              ** intros db0 bytes0 [= <-] _ _ Hk'. congruence.
        -- eexists null, _. split; [reflexivity|]. split; [reflexivity|].
           intros db0 bytes0 [= <-] _ _ Hk'. congruence.
    + exists null, w. split; [reflexivity|]. split; [reflexivity|]. discriminate.
Qed.

Lemma getMeta_and_getCache_never_reject_witness :
  let db := mkDatabase {[ "a" := [Byte.x01] ]} {[ "a" := meta_of [Byte.x01] 0 ]} in
  let w := with_db (Some db) (opened 1) in
  (∃ r, Unreliable.PDFCache.getMeta unreadable "a" w = (Resolved r, w)
     ∧ (_db w = None ∨ unreadable (store_get META "a") w = true → r = null)
     ∧ (∀ db meta,
          _db w = Some db → unreadable (store_get META "a") w = false →
          Meta db !! "a" = Some meta → r = val meta))
  ∧ (∀ e, fst (Unreliable.PDFCache.getCache unreadable "a" w) ≠ Rejected e)
  ∧ (unreadable (store_delete META "a") (tick w) = false →
     ∃ r w', Unreliable.PDFCache.getCache unreadable "a" w = (Resolved r, w')
       ∧ (unreadable (store_get CACHE "a") w = true
          ∨ unreadable (store_getKey META "a") (tick w) = true
          ∨ (∀ db, _db w = Some db → Cache db !! "a" = None) → r = null)
       ∧ (∀ db bytes,
            _db w = Some db → unreadable (store_get CACHE "a") w = false →
            unreadable (store_getKey META "a") (tick w) = false →
            Cache db !! "a" = Some bytes → r = val bytes)).
Proof. intros db w. apply (getMeta_and_getCache_never_reject unreadable "a" w). Defined.

(** C9.  The budget of [prune] is the setting times [2 ^ 20], read when
    [prune] runs: whatever the setting was before, once it is [c] the next
    [prune] deletes nothing if the total is below [c * 1048576], deletes a
    record if the total is at or above it and there is one, and leaves a
    total below [c * 1048576] or no record. *)
Theorem prune_reads_budget_in_mebibytes (c : Z) (w : World) (db : Database) :
  _db w = Some db →
  PDFCache.MAX_BYTES (with_CacheSize c w) = c * 1048576
  ∧ ∃ db', PDFCache.prune (with_CacheSize c w)
           = (Resolved tt, with_db (Some db') (with_CacheSize c w))
      ∧ (totalSize (Meta db) < c * 1048576 → db' = db)
      ∧ (c * 1048576 ≤ totalSize (Meta db) → Meta db ≠ ∅ → Meta db' ≠ Meta db)
      ∧ (totalSize (Meta db') < c * 1048576 ∨ Meta db' = ∅).
Proof.
  intros Hdb. split; [reflexivity|].
  exists (pruned (c * 1048576) db).
  split; [apply (prune_spec (with_CacheSize c w) db), Hdb|].
  split; [apply pruned_below|].
  split; [apply pruned_at_or_over|apply pruned_within].
Qed.

Lemma prune_reads_budget_in_mebibytes_witness :
  let db := mkDatabase {[ "a" := MiB ]} {[ "a" := meta_of MiB 0 ]} in
  let w := with_db (Some db) (opened 256) in
  PDFCache.MAX_BYTES (with_CacheSize 1 w) = 1 * 1048576
  ∧ ∃ db', PDFCache.prune (with_CacheSize 1 w)
           = (Resolved tt, with_db (Some db') (with_CacheSize 1 w))
      ∧ (totalSize (Meta db) < 1 * 1048576 → db' = db)
      ∧ (1 * 1048576 ≤ totalSize (Meta db) → Meta db ≠ ∅ → Meta db' ≠ Meta db)
      ∧ (totalSize (Meta db') < 1 * 1048576 ∨ Meta db' = ∅).
Proof.
  intros db w. apply (prune_reads_budget_in_mebibytes 1 w db). reflexivity.
Defined.

(** C10.  For a key that [Cache] does not hold, [getCache] resolves with
    [null] and leaves the database, and so [Meta], as it was. *)
Theorem getCache_absent_leaves_Meta (key : string) (w : World) :
  (∀ db, _db w = Some db → Cache db !! key = None) →
  ∃ w', PDFCache.getCache key w = (Resolved null, w') ∧ _db w' = _db w.
Proof.
  intros Habsent. rewrite getCache_spec.
  destruct (_db w) as [db|] eqn:Hdb.
  - rewrite (Habsent db eq_refl). exists (tick w). split; [reflexivity|].
    simpl. exact Hdb.
  - exists w. split; [reflexivity|exact Hdb].
Qed.

Lemma getCache_absent_leaves_Meta_witness :
  let db := mkDatabase {[ "a" := [Byte.x01] ]} {[ "a" := meta_of [Byte.x01] 0 ]} in
  let w := with_db (Some db) (opened 1) in
  ∃ w', PDFCache.getCache "b" w = (Resolved null, w') ∧ _db w' = _db w.
Proof.
  intros db w. apply (getCache_absent_leaves_Meta "b" w).
  intros db' [= <-]. reflexivity.
Defined.

(** * Further properties of the helper and of the cache *)

(** ** The helper: [del], [set], [get], [keys], [clr] *)

Lemma other_store (s s' : storeName) (db : Database) (m : gmap string (valueOf s)) :
  s' ≠ s → objectStore s' (withStore s db m) = objectStore s' db.
Proof. destruct s, s'; intros Hne; try reflexivity; contradiction. Qed.

(** X1.  On an opened helper [del (key, storeName)] resolves; afterwards
    [get] finds no record under the key, every other key of the store and
    the whole other store are as they were, and a key that had no record
    leaves the world as it was. *)
Theorem del_removes_one_record (key : string) (s : storeName) (w : World) (db : Database) :
  _db w = Some db →
  ∃ w' db',
    IDBHelper.del key s w = (Resolved tt, w') ∧ _db w' = Some db'
    ∧ IDBHelper.get key s w' = (Resolved undefined, w')
    ∧ (∀ k, k ≠ key → objectStore s db' !! k = objectStore s db !! k)
    ∧ (∀ s', s' ≠ s → objectStore s' db' = objectStore s' db)
    ∧ (objectStore s db !! key = None → w' = w).
Proof.
  intros Hdb. unfold IDBHelper.del, IDBHelper.get. rewrite Hdb.
  eexists _, _. split; [reflexivity|]. split; [reflexivity|]. simpl.
  rewrite objectStore_withStore, lookup_delete_eq.
  split; [reflexivity|].
  split; [intros k Hk; apply lookup_delete_ne; congruence|].
  split; [intros s' Hs'; apply other_store, Hs'|].
  intros Habsent. rewrite delete_id by exact Habsent.
  rewrite <- (with_db_id w db Hdb) at 2. f_equal. f_equal.
  destruct s, db; reflexivity.
Qed.

Lemma del_removes_one_record_witness :
  let db := mkDatabase {[ "a" := [Byte.x01]; "b" := [Byte.x02] ]} ∅ in
  let w := with_db (Some db) (opened 1) in
  ∃ w' db',
    IDBHelper.del "a" CACHE w = (Resolved tt, w') ∧ _db w' = Some db'
    ∧ IDBHelper.get "a" CACHE w' = (Resolved undefined, w')
    ∧ (∀ k, k ≠ "a" → objectStore CACHE db' !! k = objectStore CACHE db !! k)
    ∧ (∀ s', s' ≠ CACHE → objectStore s' db' = objectStore s' db)
    ∧ (objectStore CACHE db !! "a" = None → w' = w).
Proof. intros db w. apply (del_removes_one_record "a" CACHE w db). reflexivity. Defined.

(** X2.  On an opened helper [set], forced or not, of a key that has no
    record resolves, and [get] then answers with the value that was set;
    the other keys of the store and the other store are as they were.
    This holds for every key, the empty string included. *)
Theorem set_then_get_new_key (key : string) (s : storeName) (value : valueOf s)
    (force : bool) (w : World) (db : Database) :
  _db w = Some db →
  objectStore s db !! key = None →
  ∃ w' db',
    IDBHelper.set key s value force w = (Resolved tt, w') ∧ _db w' = Some db'
    ∧ IDBHelper.get key s w' = (Resolved (val value), w')
    ∧ (∀ k, k ≠ key → objectStore s db' !! k = objectStore s db !! k)
    ∧ (∀ s', s' ≠ s → objectStore s' db' = objectStore s' db).
Proof.
  intros Hdb Hnew. unfold IDBHelper.set, IDBHelper.get.
  rewrite Hdb, truthy_getKey, Hnew. unfold IDBHelper.add. rewrite Hnew.
  eexists _, _. split; [reflexivity|]. split; [reflexivity|]. simpl.
  rewrite objectStore_withStore, lookup_insert_eq.
  split; [reflexivity|].
  split; [intros k Hk; apply lookup_insert_ne; congruence|].
  intros s' Hs'. apply other_store, Hs'.
Qed.

Lemma set_then_get_new_key_witness :
  let db := mkDatabase {[ "a" := [Byte.x01] ]} ∅ in
  let w := with_db (Some db) (opened 1) in
  ∃ w' db',
    IDBHelper.set EmptyString CACHE [Byte.x02] false w = (Resolved tt, w') ∧ _db w' = Some db'
    ∧ IDBHelper.get EmptyString CACHE w' = (Resolved (val [Byte.x02]), w')
    ∧ (∀ k, k ≠ EmptyString → objectStore CACHE db' !! k = objectStore CACHE db !! k)
    ∧ (∀ s', s' ≠ CACHE → objectStore s' db' = objectStore s' db).
Proof.
  intros db w. apply (set_then_get_new_key EmptyString CACHE [Byte.x02] false w db); reflexivity.
Defined.

(** X3.  On an opened helper [keys (storeName)] resolves, and changes
    nothing; it answers with the keys for which [get] finds a record, each
    of them once, and with no other key. *)
Theorem keys_lists_the_records (s : storeName) (w : World) (db : Database) :
  _db w = Some db →
  ∃ ks,
    IDBHelper.keys s w = (Resolved ks, w)
    ∧ NoDup ks
    ∧ (∀ k, k ∈ ks ↔ ∃ v, IDBHelper.get k s w = (Resolved (val v), w)).
Proof.
  intros Hdb. unfold IDBHelper.keys, IDBHelper.get. rewrite Hdb.
  exists (IDBHelper.getAllKeys (objectStore s db)).
  split; [reflexivity|].
  split; [rewrite getAllKeys_perm; apply NoDup_fst_map_to_list|].
  intros k. rewrite elem_of_getAllKeys. split.
  - intros [v Hv]. exists v. rewrite Hv. reflexivity.
  - intros [v Hv]. destruct (objectStore s db !! k) as [v'|]; [eauto|discriminate].
Qed.

Lemma keys_lists_the_records_witness :
  let db := mkDatabase {[ "b" := [Byte.x01]; "a" := [Byte.x02] ]} ∅ in
  let w := with_db (Some db) (opened 1) in
  ∃ ks,
    IDBHelper.keys CACHE w = (Resolved ks, w)
    ∧ NoDup ks
    ∧ (∀ k, k ∈ ks ↔ ∃ v, IDBHelper.get k CACHE w = (Resolved (val v), w)).
Proof. intros db w. apply (keys_lists_the_records CACHE w db). reflexivity. Defined.

Lemma Promise_all_resolved (n : nat) :
  IDBHelper.Promise_all (replicate n (Resolved tt)) = Resolved tt.
Proof. induction n as [|n IH]; [reflexivity|exact IH]. Qed.

Lemma start_dels_spec (ks : list string) (s : storeName) (w : World) (db : Database) :
  _db w = Some db →
  IDBHelper.start_dels ks s w
  = (replicate (length ks) (Resolved tt),
     with_db (Some (withStore s db (remove_keys ks (objectStore s db)))) w).
Proof.
  revert w db; induction ks as [|k ks IH]; intros w db Hdb.
  - simpl. rewrite <- (with_db_id w db Hdb) at 1. do 3 f_equal. destruct s, db; reflexivity.
  - cbn [IDBHelper.start_dels]. unfold IDBHelper.del. rewrite Hdb.
    erewrite IH by reflexivity.
    rewrite objectStore_withStore, withStore_withStore. reflexivity.
Qed.

Lemma remove_all_keys {V : Type} (m : gmap string V) :
  remove_keys (IDBHelper.getAllKeys m) m = ∅.
Proof.
  apply map_eq. intros k. rewrite lookup_remove_keys, lookup_empty.
  destruct (decide (k ∈ IDBHelper.getAllKeys m)) as [Hin|Hnin]; [reflexivity|].
  destruct (m !! k) as [v|] eqn:Hk; [|reflexivity].
  exfalso. apply Hnin, elem_of_getAllKeys. eauto.
Qed.

(** X4.  On an opened helper [clr (storeName)] resolves and leaves the
    store without any record, so that [keys] answers with no key; the
    other store is as it was. *)
Theorem clr_empties_the_store (s : storeName) (w : World) (db : Database) :
  _db w = Some db →
  ∃ w' db',
    IDBHelper.clr s w = (Resolved tt, w') ∧ _db w' = Some db'
    ∧ objectStore s db' = ∅
    ∧ IDBHelper.keys s w' = (Resolved [], w')
    ∧ (∀ s', s' ≠ s → objectStore s' db' = objectStore s' db).
Proof.
  intros Hdb. unfold IDBHelper.clr, IDBHelper.keys. rewrite Hdb.
  rewrite (start_dels_spec _ _ _ db Hdb), Promise_all_resolved, remove_all_keys.
  eexists _, _. split; [reflexivity|]. split; [reflexivity|]. simpl.
  rewrite objectStore_withStore.
  split; [reflexivity|]. split; [reflexivity|].
  intros s' Hs'. apply other_store, Hs'.
Qed.

Lemma clr_empties_the_store_witness :
  let db := mkDatabase {[ "b" := [Byte.x01]; "a" := [Byte.x02] ]}
                       {[ "a" := meta_of [Byte.x02] 0 ]} in
  let w := with_db (Some db) (opened 1) in
  ∃ w' db',
    IDBHelper.clr CACHE w = (Resolved tt, w') ∧ _db w' = Some db'
    ∧ objectStore CACHE db' = ∅
    ∧ IDBHelper.keys CACHE w' = (Resolved [], w')
    ∧ (∀ s', s' ≠ CACHE → objectStore s' db' = objectStore s' db).
Proof. intros db w. apply (clr_empties_the_store CACHE w db). reflexivity. Defined.

(** ** [Meta] keeps describing [Cache] *)

Lemma Meta_written (key : string) (bytes : list Byte.byte) (now : Z) (db : Database) :
  key ≠ EmptyString →
  Meta (written key bytes now db) = <[key := meta_of bytes now]> (Meta db).
Proof.
  intros Hne. unfold written.
  rewrite (forced_nonempty key META (meta_of bytes now) _ Hne). reflexivity.
Qed.

Lemma consistent_insert (key : string) (bytes : list Byte.byte) (now : Z) (db : Database) :
  consistent db →
  consistent (mkDatabase (<[key := bytes]> (Cache db)) (<[key := meta_of bytes now]> (Meta db))).
Proof.
  intros H k. cbn [Cache Meta]. destruct (decide (k = key)) as [->|Hne].
  - rewrite !lookup_insert_eq. reflexivity.
  - rewrite !lookup_insert_ne by congruence. apply H.
Qed.

(** The two writes of [setCache] on a consistent database: either they
    store the new bytes and their record, or, on the empty string when it
    has a record, they change nothing. *)
Lemma written_cases (key : string) (bytes : list Byte.byte) (now : Z) (db : Database) :
  consistent db →
  written key bytes now db
  = mkDatabase (<[key := bytes]> (Cache db)) (<[key := meta_of bytes now]> (Meta db))
  ∨ (key = EmptyString ∧ is_Some (Cache db !! key) ∧ written key bytes now db = db).
Proof.
  intros H. pose proof (H key) as Hk.
  destruct (Cache db !! key) as [b|] eqn:Hc; destruct (Meta db !! key) as [m|] eqn:Hm;
    try contradiction.
  - destruct (decide (key = EmptyString)) as [->|Hne].
    + right. split; [reflexivity|]. split; [eauto|]. unfold written.
      rewrite (forced_empty_key CACHE bytes b db Hc).
      apply (forced_empty_key META (meta_of bytes now) m db Hm).
    + left. destruct (written key bytes now db) as [c' m'] eqn:Hw.
      pose proof (Cache_written key bytes now db Hne) as H1.
      pose proof (Meta_written key bytes now db Hne) as H2.
      rewrite Hw in H1, H2. simpl in H1, H2. congruence.
  - left. apply written_fresh; assumption.
Qed.

Lemma consistent_written (key : string) (bytes : list Byte.byte) (now : Z) (db : Database) :
  consistent db → consistent (written key bytes now db).
Proof.
  intros H. destruct (written_cases key bytes now db H) as [-> | (_ & _ & ->)];
    [apply consistent_insert, H | exact H].
Qed.

Lemma consistent_evict_keys (ks : list string) (db : Database) :
  consistent db → consistent (evict_keys ks db).
Proof.
  intros H k. rewrite Cache_evict_keys, Meta_evict_keys, !lookup_remove_keys.
  destruct (decide (k ∈ ks)); [exact I | apply H].
Qed.

Lemma consistent_pruned (budget : Z) (db : Database) :
  consistent db → consistent (pruned budget db).
Proof. apply consistent_evict_keys. Qed.








Lemma consistent_empty : consistent (mkDatabase ∅ ∅).
Proof. intros k. cbn [Cache Meta]. rewrite !lookup_empty. exact I. Qed.



(** ** The bytes that are stored *)

Lemma totalSize_delete (m : gmap string CacheMeta) (k : string) (meta : CacheMeta) :
  m !! k = Some meta → totalSize m = size meta + totalSize (delete k m).
Proof.
  intros Hk. unfold totalSize.
  rewrite <- (sum_sizes_perm _ _ (map_to_list_delete m k meta Hk)). reflexivity.
Qed.

Lemma storedBytes_insert (c : gmap string (list Byte.byte)) (k : string) (b : list Byte.byte) :
  c !! k = None → storedBytes (<[k := b]> c) = Z.of_nat (length b) + storedBytes c.
Proof.
  intros Hk. unfold storedBytes.
  assert (Hperm : ∀ l1 l2 : list (string * list Byte.byte), l1 ≡ₚ l2 →
            foldr (λ e acc, Z.of_nat (length (snd e)) + acc) 0 l1
            = foldr (λ e acc, Z.of_nat (length (snd e)) + acc) 0 l2)
    by (induction 1; simpl; lia).
  rewrite (Hperm _ _ (map_to_list_insert c k b Hk)). reflexivity.
Qed.

Lemma storedBytes_empty : storedBytes ∅ = 0.
Proof. unfold storedBytes. rewrite map_to_list_empty. reflexivity. Qed.

(** On a consistent database the total of the recorded sizes is the
    number of bytes stored. *)
Lemma consistent_totalSize (db : Database) :
  consistent db → totalSize (Meta db) = storedBytes (Cache db).
Proof.
  destruct db as [c m]. unfold consistent. cbn [Cache Meta].
  revert m. induction c as [|k b c Hk IH] using map_ind; intros m H.
  - assert (m = ∅) as ->.
    { apply map_eq. intros k. specialize (H k). rewrite lookup_empty in *.
      destruct (m !! k); [contradiction|reflexivity]. }
    rewrite totalSize_empty, storedBytes_empty. reflexivity.
  - pose proof (H k) as Hkk. rewrite lookup_insert_eq in Hkk.
    destruct (m !! k) as [meta|] eqn:Hm; [|contradiction].
    rewrite (totalSize_delete m k meta Hm), (storedBytes_insert c k b Hk), Hkk.
    f_equal. apply IH. intros k'. destruct (decide (k' = k)) as [->|Hne].
    + rewrite Hk, lookup_delete_eq. exact I.
    + specialize (H k'). rewrite lookup_insert_ne in H by congruence.
      rewrite lookup_delete_ne by congruence. exact H.
Qed.

Lemma consistent_Meta_empty (db : Database) :
  consistent db → Meta db = ∅ → Cache db = ∅.
Proof.
  intros H Hm. apply map_eq. intros k. specialize (H k).
  rewrite Hm in H. rewrite !lookup_empty in *.
  destruct (Cache db !! k); [contradiction|reflexivity].
Qed.

(** After a pass over a consistent database the bytes that are left add
    up to less than the budget, or nothing is left. *)
Lemma pruned_stored_bytes (budget : Z) (db : Database) :
  consistent db →
  consistent (pruned budget db)
  ∧ (storedBytes (Cache (pruned budget db)) < budget ∨ Cache (pruned budget db) = ∅).
Proof.
  intros H. pose proof (consistent_pruned budget db H) as H'. split; [exact H'|].
  destruct (pruned_within budget db) as [Hlt|Hempty].
  - left. rewrite <- (consistent_totalSize _ H'). exact Hlt.
  - right. apply consistent_Meta_empty; assumption.
Qed.

(** X6.  On an opened cache where [Meta] describes [Cache], after
    [setCache] the bytes that [Cache] really holds, and not only the sizes
    that [Meta] records, add up to less than [MAX_BYTES], or [Cache] holds
    nothing; and [Meta] still describes [Cache]. *)
Theorem stored_bytes_below_budget (key : string) (bytes : list Byte.byte)
    (w : World) (db : Database) :
  _db w = Some db →
  consistent db →
  ∃ w' db',
    PDFCache.setCache key bytes w = (Resolved tt, w') ∧ _db w' = Some db'
    ∧ consistent db'
    ∧ totalSize (Meta db') = storedBytes (Cache db')
    ∧ (storedBytes (Cache db') < PDFCache.MAX_BYTES w ∨ Cache db' = ∅).
Proof.
  intros Hdb H. rewrite (setCache_resolves _ _ _ _ Hdb).
  destruct (pruned_stored_bytes (PDFCache.MAX_BYTES w)
              (written key bytes (clock w (ticks w)) db) (consistent_written _ _ _ _ H))
    as [H' Hbudget].
  eexists _, _. split; [reflexivity|]. split; [reflexivity|]. split; [exact H'|].
  split; [apply consistent_totalSize, H'|exact Hbudget].
Qed.

Lemma stored_bytes_below_budget_witness :
  let db := mkDatabase {[ "a" := [Byte.x01] ]} {[ "a" := meta_of [Byte.x01] 0 ]} in
  let w := with_db (Some db) (opened 1) in
  ∃ w' db',
    PDFCache.setCache "b" [Byte.x02; Byte.x03] w = (Resolved tt, w') ∧ _db w' = Some db'
    ∧ consistent db'
    ∧ totalSize (Meta db') = storedBytes (Cache db')
    ∧ (storedBytes (Cache db') < PDFCache.MAX_BYTES w ∨ Cache db' = ∅).
Proof.
  intros db w. apply (stored_bytes_below_budget "b" [Byte.x02; Byte.x03] w db).
  - reflexivity.
  - intros k. unfold db. cbn [Cache Meta].
    destruct (decide (k = "a")) as [->|Hne].
    + reflexivity.
    + rewrite !lookup_singleton_ne by congruence. exact I.
Defined.

(** ** What [prune] leaves alone *)

Lemma pruned_pruned (budget : Z) (db : Database) :
  pruned budget (pruned budget db) = pruned budget db.
Proof.
  destruct (pruned_within budget db) as [Hlt|Hempty].
  - apply pruned_below, Hlt.
  - unfold pruned at 1. rewrite Hempty. unfold records.
    unfold IDBHelper.getAllKeys. rewrite map_to_list_empty. reflexivity.
Qed.

(** X7.  [prune] right after [prune] deletes nothing: on an opened cache
    two passes leave what one pass leaves. *)
Theorem prune_twice (w : World) (db : Database) :
  _db w = Some db →
  (PDFCache.prune;; PDFCache.prune) w = PDFCache.prune w.
Proof.
  intros Hdb. rewrite (bind_resolved _ _ _ _ _ (prune_spec w db Hdb)).
  rewrite (prune_spec w db Hdb).
  rewrite (prune_spec _ (pruned (PDFCache.MAX_BYTES w) db)) by reflexivity.
  change (PDFCache.MAX_BYTES (with_db _ w)) with (PDFCache.MAX_BYTES w).
  rewrite pruned_pruned. reflexivity.
Qed.

Lemma prune_twice_witness :
  let db := mkDatabase {[ "a" := MiB; "b" := [Byte.x01] ]}
                       {[ "a" := meta_of MiB 0; "b" := meta_of [Byte.x01] 1 ]} in
  let w := with_db (Some db) (opened 1) in
  (PDFCache.prune;; PDFCache.prune) w = PDFCache.prune w.
Proof. intros db w. apply (prune_twice w db). reflexivity. Defined.

Lemma evictions_subset (budget : Z) (metas : list (string * CacheMeta)) (totalBytes : Z)
    (e : string * CacheMeta) :
  e ∈ evictions budget metas totalBytes → e ∈ metas.
Proof.
  destruct (evictions_prefix budget metas totalBytes) as [kept Hk].
  intros He. rewrite Hk. apply elem_of_app. left. exact He.
Qed.

(** X8.  [prune] takes whole entries of keys that [Meta] knows, and does
    nothing else: after a pass every key either has in both stores what it
    had before, or had a record in [Meta] and is gone from both stores.  So
    bytes in [Cache] under a key without a record in [Meta] are never
    evicted. *)
Theorem prune_takes_whole_entries (w : World) (db : Database) :
  _db w = Some db →
  ∃ w' db',
    PDFCache.prune w = (Resolved tt, w') ∧ _db w' = Some db'
    ∧ (∀ key,
         (Cache db' !! key = Cache db !! key ∧ Meta db' !! key = Meta db !! key)
         ∨ (is_Some (Meta db !! key) ∧ Cache db' !! key = None ∧ Meta db' !! key = None))
    ∧ (∀ key, Meta db !! key = None → Cache db' !! key = Cache db !! key).
Proof.
  intros Hdb. rewrite (prune_spec w db Hdb).
  eexists _, _. split; [reflexivity|]. split; [reflexivity|].
  assert (Hkeys : ∀ key,
            key ∈ map fst (evictions (PDFCache.MAX_BYTES w)
                             (PDFCache.sort_by_date (records (Meta db))) (totalSize (Meta db))) →
            is_Some (Meta db !! key)).
  { intros key Hin. change (map fst ?l) with (l.*1) in Hin.
    apply list_elem_of_fmap in Hin as [[k m] [-> He]].
    apply evictions_subset in He. rewrite sort_by_date_perm, records_perm in He.
    apply elem_of_map_to_list in He. simpl. eauto. }
  assert (Hall : ∀ key,
            (Cache (pruned (PDFCache.MAX_BYTES w) db) !! key = Cache db !! key
             ∧ Meta (pruned (PDFCache.MAX_BYTES w) db) !! key = Meta db !! key)
            ∨ (is_Some (Meta db !! key)
               ∧ Cache (pruned (PDFCache.MAX_BYTES w) db) !! key = None
               ∧ Meta (pruned (PDFCache.MAX_BYTES w) db) !! key = None)).
  { intros key. unfold pruned.
    rewrite Cache_evict_keys, Meta_evict_keys, !lookup_remove_keys.
    destruct (decide _) as [Hin|Hnin]; [right|left]; auto. }
  split; [exact Hall|].
  intros key Hnone. destruct (Hall key) as [[Hc _]|[[m Hm] _]]; [exact Hc|congruence].
Qed.

Lemma prune_takes_whole_entries_witness :
  let db := mkDatabase {[ "a" := MiB; "orphan" := MiB ]} {[ "a" := meta_of MiB 0 ]} in
  let w := with_db (Some db) (opened 1) in
  ∃ w' db',
    PDFCache.prune w = (Resolved tt, w') ∧ _db w' = Some db'
    ∧ (∀ key,
         (Cache db' !! key = Cache db !! key ∧ Meta db' !! key = Meta db !! key)
         ∨ (is_Some (Meta db !! key) ∧ Cache db' !! key = None ∧ Meta db' !! key = None))
    ∧ (∀ key, Meta db !! key = None → Cache db' !! key = Cache db !! key).
Proof. intros db w. apply (prune_takes_whole_entries w db). reflexivity. Defined.

(** ** No budget, and entries that are too large *)

Lemma storedBytes_nonneg (c : gmap string (list Byte.byte)) : 0 ≤ storedBytes c.
Proof.
  unfold storedBytes. induction (map_to_list c) as [|e l IH]; simpl; lia.
Qed.

Lemma storedBytes_lookup (c : gmap string (list Byte.byte)) (k : string) (b : list Byte.byte) :
  c !! k = Some b → Z.of_nat (length b) ≤ storedBytes c.
Proof.
  intros Hk. rewrite <- (insert_delete_id c k b Hk).
  rewrite storedBytes_insert by apply lookup_delete_eq.
  pose proof (storedBytes_nonneg (delete k c)). lia.
Qed.

(** X9.  With a [CacheSize] of zero, or a negative one, nothing stays
    cached: on an opened cache where [Meta] describes [Cache], [setCache]
    resolves and leaves both stores empty, whatever they held before. *)
Theorem nothing_stays_cached_without_budget (key : string) (bytes : list Byte.byte)
    (w : World) (db : Database) :
  _db w = Some db →
  consistent db →
  CacheSize w ≤ 0 →
  ∃ w', PDFCache.setCache key bytes w = (Resolved tt, w')
    ∧ _db w' = Some (mkDatabase ∅ ∅).
Proof.
  intros Hdb H Hsize. rewrite (setCache_resolves _ _ _ _ Hdb).
  set (db' := pruned (PDFCache.MAX_BYTES w) (written key bytes (clock w (ticks w)) db)).
  destruct (pruned_stored_bytes (PDFCache.MAX_BYTES w)
              (written key bytes (clock w (ticks w)) db) (consistent_written _ _ _ _ H))
    as [H' Hbudget].
  fold db' in H', Hbudget.
  eexists. split; [reflexivity|]. cbn [_db with_db]. f_equal.
  assert (Hc : Cache db' = ∅).
  { destruct Hbudget as [Hlt|Hempty]; [|exact Hempty].
    pose proof (storedBytes_nonneg (Cache db')).
    unfold PDFCache.MAX_BYTES in Hlt. change (2 ^ 20) with 1048576 in Hlt. lia. }
  assert (Hm : Meta db' = ∅).
  { apply map_eq. intros k. specialize (H' k). rewrite Hc in H'. rewrite !lookup_empty in *.
    destruct (Meta db' !! k); [contradiction|reflexivity]. }
  destruct db' as [c m]. simpl in Hc, Hm. subst. reflexivity.
Qed.

Lemma nothing_stays_cached_without_budget_witness :
  let db := mkDatabase {[ "a" := [Byte.x01] ]} {[ "a" := meta_of [Byte.x01] 0 ]} in
  let w := with_db (Some db) (opened 0) in
  ∃ w', PDFCache.setCache "b" [Byte.x02] w = (Resolved tt, w')
    ∧ _db w' = Some (mkDatabase ∅ ∅).
Proof.
  intros db w. apply (nothing_stays_cached_without_budget "b" [Byte.x02] w db).
  - reflexivity.
  - intros k. unfold db. cbn [Cache Meta].
    destruct (decide (k = "a")) as [->|Hne].
    + reflexivity.
    + rewrite !lookup_singleton_ne by congruence. exact I.
  - reflexivity.
Defined.

(** X10.  An array as long as the whole budget, or longer, is not cached:
    on an opened cache where [Meta] describes [Cache], [setCache] of such an
    array under a key other than the empty string resolves and leaves the
    key in neither store, so that [getCache] answers [null] right after. *)
Theorem oversized_entry_is_not_cached (key : string) (bytes : list Byte.byte)
    (w : World) (db : Database) :
  key ≠ EmptyString →
  _db w = Some db →
  consistent db →
  PDFCache.MAX_BYTES w ≤ Z.of_nat (length bytes) →
  ∃ w' db',
    PDFCache.setCache key bytes w = (Resolved tt, w') ∧ _db w' = Some db'
    ∧ Cache db' !! key = None ∧ Meta db' !! key = None
    ∧ fst (PDFCache.getCache key w') = Resolved null.
Proof.
  intros Hne Hdb H Hbig. rewrite (setCache_resolves _ _ _ _ Hdb).
  set (db' := pruned (PDFCache.MAX_BYTES w) (written key bytes (clock w (ticks w)) db)).
  destruct (pruned_stored_bytes (PDFCache.MAX_BYTES w)
              (written key bytes (clock w (ticks w)) db) (consistent_written _ _ _ _ H))
    as [H' Hbudget].
  fold db' in H', Hbudget.
  exists (with_db (Some db') (tick w)), db'. split; [reflexivity|]. split; [reflexivity|].
  assert (Hc : Cache db' !! key = None).
  { destruct (Cache db' !! key) as [b|] eqn:Hb; [exfalso|reflexivity].
    pose proof (Cache_pruned_lookup _ _ _ _ Hb) as Hw.
    rewrite (Cache_written _ _ _ _ Hne), lookup_insert_eq in Hw. injection Hw as <-.
    pose proof (storedBytes_lookup _ _ _ Hb) as Hge.
    destruct Hbudget as [Hlt|Hempty]; [lia|].
    rewrite Hempty, lookup_empty in Hb. discriminate. }
  assert (Hm : Meta db' !! key = None).
  { specialize (H' key). rewrite Hc in H'.
    destruct (Meta db' !! key); [contradiction|reflexivity]. }
  split; [exact Hc|]. split; [exact Hm|].
  rewrite getCache_spec. cbn [_db with_db]. rewrite Hc. reflexivity.
Qed.

Lemma oversized_entry_is_not_cached_witness :
  let w := opened 1 in
  ∃ w' db',
    PDFCache.setCache "a" MiB w = (Resolved tt, w') ∧ _db w' = Some db'
    ∧ Cache db' !! "a" = None ∧ Meta db' !! "a" = None
    ∧ fst (PDFCache.getCache "a" w') = Resolved null.
Proof.
  intros w. apply (oversized_entry_is_not_cached "a" MiB w (mkDatabase ∅ ∅)).
  - discriminate.
  - reflexivity.
  - intros k. exact I.
  - vm_compute. discriminate.
Defined.

(** ** How [preload] settles *)

Lemma getCache_keeps_open (key : string) (w : World) (db : Database) :
  _db w = Some db → ∃ db', _db (snd (PDFCache.getCache key w)) = Some db'.
Proof.
  intros Hdb. rewrite getCache_spec, Hdb.
  destruct (Cache db !! key); simpl; eauto.
Qed.

Lemma getCache_fetched (key : string) (w : World) :
  fetched (snd (PDFCache.getCache key w)) = fetched w.
Proof.
  rewrite getCache_spec. destruct (_db w) as [db|]; [|reflexivity].
  destruct (Cache db !! key); reflexivity.
Qed.

(** X11.  On an opened cache, when no request of IndexedDB fails,
    [preload] settles unless the fetch, or the reading of the body, rejects.
    It resolves without a fetch when usable bytes are cached.  Otherwise it
    fetches once: it never settles when [fetch] rejects; it rejects with
    'Fetch failed.' when the response is not ok; it never settles when the
    body cannot be read; and else it resolves when the body has bytes and
    rejects with 'Fetch failed.' when it has none. *)
Theorem preload_settles_unless_fetch_rejects (β : Faults) (key : string) (w : World)
    (db : Database) :
  storage_reliable β →
  _db w = Some db →
  ∃ w',
    Unreliable.PDFCache.preload β key w
    = (if cached key w then Resolved tt
       else if β (network_fetch key) (snd (PDFCache.getCache key w)) then Unsettled TypeError
       else if negb (ok (network w key)) then Rejected Fetch_failed
       else if β (response_arrayBuffer key) (note_fetch key (snd (PDFCache.getCache key w)))
            then Unsettled TypeError
       else if 0 <? Z.of_nat (length (arrayBuffer (network w key))) then Resolved tt
       else Rejected Fetch_failed, w')
    ∧ fetched w' = (if cached key w then fetched w else fetched w ++ [key]).
Proof.
  intros Hβ Hdb.
  pose proof (getCache_reliable β key w Hβ) as Hg.
  pose proof (getCache_fetched key w) as Hf.
  destruct (getCache_keeps_open key w db Hdb) as [db1 Hdb1].
  assert (Hnet : network (snd (PDFCache.getCache key w)) = network w).
  { rewrite getCache_spec, Hdb. destruct (Cache db !! key); reflexivity. }
  destruct (cached key w) eqn:Hc.
  - unfold Unreliable.PDFCache.preload, PDFCache.new_Promise_async, mbind, M_bind.
    rewrite Hg. revert Hf. rewrite getCache_spec. unfold cached in Hc. rewrite Hdb in *.
    destruct (Cache db !! key) as [bytes|]; [|discriminate]. cbn [snd]. intros Hf.
    cbn [PDFCache.nonempty mret M_ret]. rewrite Hc.
    eexists. split; [reflexivity|exact Hf].
  - assert (Hr : ∃ r, PDFCache.getCache key w = (Resolved r, snd (PDFCache.getCache key w))
                   ∧ (r = null ∨ r = val [])).
    { rewrite getCache_spec. unfold cached in Hc. rewrite Hdb in *.
      destruct (Cache db !! key) as [[|b bytes]|]; [|discriminate|];
        eexists; (split; [reflexivity|]); auto. }
    destruct Hr as (r & Hr & Hnull). rewrite <- Hg in Hr at 1.
    rewrite (Unreliable_preload_miss β key w _ r Hr Hnull). cbv zeta. rewrite Hnet.
    destruct (β (network_fetch key) _).
    { eexists. split; [reflexivity|]. simpl. rewrite Hf. reflexivity. }
    destruct (ok (network w key)); cbn [negb].
    2: { eexists. split; [reflexivity|]. simpl. rewrite Hf. reflexivity. }
    destruct (β (response_arrayBuffer key) _).
    { eexists. split; [reflexivity|]. simpl. rewrite Hf. reflexivity. }
    destruct (0 <? Z.of_nat (length (arrayBuffer (network w key)))).
    2: { eexists. split; [reflexivity|]. simpl. rewrite Hf. reflexivity. }
    rewrite (setCache_reliable β key _ _ Hβ).
    rewrite (setCache_resolves _ _ _ db1) by exact Hdb1.
    eexists. split; [reflexivity|]. simpl. rewrite Hf. reflexivity.
Qed.

Lemma preload_settles_unless_fetch_rejects_witness :
  let w := with_network (λ _, mkResponse true [Byte.x01]) (opened 1) in
  ∃ w',
    Unreliable.PDFCache.preload offline "a" w
    = (if cached "a" w then Resolved tt
       else if offline (network_fetch "a") (snd (PDFCache.getCache "a" w))
            then Unsettled TypeError
       else if negb (ok (network w "a")) then Rejected Fetch_failed
       else if offline (response_arrayBuffer "a") (note_fetch "a" (snd (PDFCache.getCache "a" w)))
            then Unsettled TypeError
       else if 0 <? Z.of_nat (length (arrayBuffer (network w "a"))) then Resolved tt
       else Rejected Fetch_failed, w')
    ∧ fetched w' = (if cached "a" w then fetched w else fetched w ++ ["a"]).
Proof.
  intros w. apply (preload_settles_unless_fetch_rejects offline "a" w (mkDatabase ∅ ∅)).
  - intros [] w0; exact I || reflexivity.
  - reflexivity.
Defined.

(** X12.  Before the helper is opened [preload] of a resource that can be
    fetched never settles: [getCache] answers [null], the fetch is made and
    answers with bytes, [setCache] rejects inside the [async] executor, and
    neither [resolve] nor [reject] is called.  When the fetch gives nothing
    [preload] rejects with 'Fetch failed.' as on an opened cache. *)
Theorem preload_before_open (key : string) (w : World) :
  _db w = None →
  ∃ w',
    PDFCache.preload key w
    = (if ok (network w key) && (0 <? Z.of_nat (length (arrayBuffer (network w key))))
       then Unsettled (CacheError_not_initialized CACHE) else Rejected Fetch_failed, w')
    ∧ _db w' = None
    ∧ fetched w' = fetched w ++ [key].
Proof.
  intros Hdb.
  assert (Hc : cached key w = false) by (unfold cached; rewrite Hdb; reflexivity).
  rewrite (preload_miss _ _ Hc). cbv zeta.
  assert (Hg : PDFCache.getCache key w = (Resolved null, w))
    by (rewrite getCache_spec, Hdb; reflexivity).
  rewrite Hg. simpl snd.
  destruct (ok (network w key) && (0 <? Z.of_nat (length (arrayBuffer (network w key))))).
  - rewrite setCache_not_initialized by exact Hdb.
    eexists. split; [reflexivity|]. split; [exact Hdb|reflexivity].
  - eexists. split; [reflexivity|]. split; [exact Hdb|reflexivity].
Qed.

Lemma preload_before_open_witness :
  let w := with_db None (with_network (λ _, mkResponse true [Byte.x01]) (opened 1)) in
  ∃ w',
    PDFCache.preload "a" w
    = (if ok (network w "a") && (0 <? Z.of_nat (length (arrayBuffer (network w "a"))))
       then Unsettled (CacheError_not_initialized CACHE) else Rejected Fetch_failed, w')
    ∧ _db w' = None
    ∧ fetched w' = fetched w ++ ["a"].
Proof. intros w. apply (preload_before_open "a" w). reflexivity. Defined.

(** ** Reading back what was written *)

Lemma forced_written_key (key : string) (s : storeName) (value : valueOf s) (db : Database) :
  key ≠ EmptyString ∨ objectStore s db !! key = None →
  forced key s value db = withStore s db (<[key := value]> (objectStore s db)).
Proof. intros [Hne|Hnew]; [apply forced_nonempty, Hne | apply forced_fresh, Hnew]. Qed.

(** X13.  On an opened cache [setMeta], for a key other than the empty
    string or a key without a record, resolves, and [getMeta] then answers
    with the record that was set; [Cache] and the records of the other keys
    are as they were. *)
Theorem setMeta_then_getMeta (key : string) (meta : CacheMeta) (w : World) (db : Database) :
  _db w = Some db →
  key ≠ EmptyString ∨ Meta db !! key = None →
  ∃ w' db',
    PDFCache.setMeta key meta w = (Resolved tt, w') ∧ _db w' = Some db'
    ∧ PDFCache.getMeta key w' = (Resolved (val meta), w')
    ∧ Cache db' = Cache db
    ∧ (∀ k, k ≠ key → Meta db' !! k = Meta db !! k).
Proof.
  intros Hdb Hkey. unfold PDFCache.setMeta.
  rewrite (set_force_spec _ _ _ _ db Hdb), (forced_written_key key META meta db Hkey).
  eexists _, _. split; [reflexivity|]. split; [reflexivity|].
  rewrite getMeta_spec. cbn [_db with_db withStore objectStore Cache Meta].
  rewrite lookup_insert_eq.
  split; [reflexivity|]. split; [reflexivity|].
  intros k Hk. apply lookup_insert_ne. congruence.
Qed.

Lemma setMeta_then_getMeta_witness :
  let db := mkDatabase {[ "a" := [Byte.x01] ]} {[ "a" := meta_of [Byte.x01] 0 ]} in
  let w := with_db (Some db) (opened 1) in
  ∃ w' db',
    PDFCache.setMeta "a" (mkMeta 1 7) w = (Resolved tt, w') ∧ _db w' = Some db'
    ∧ PDFCache.getMeta "a" w' = (Resolved (val (mkMeta 1 7)), w')
    ∧ Cache db' = Cache db
    ∧ (∀ k, k ≠ "a" → Meta db' !! k = Meta db !! k).
Proof.
  intros db w. apply (setMeta_then_getMeta "a" (mkMeta 1 7) w db).
  - reflexivity.
  - left. discriminate.
Defined.

(** X14.  On an opened cache a [getCache] that finds bytes, for a key
    other than the empty string or a key without a record in [Meta], puts
    under the key the record of their length and of the reading of the
    clock, and touches nothing else: [Cache] and the records of the other
    keys are as they were, one reading of the clock was taken and nothing
    was fetched. *)
Theorem getCache_refreshes_one_record (key : string) (bytes : list Byte.byte)
    (w : World) (db : Database) :
  _db w = Some db →
  Cache db !! key = Some bytes →
  key ≠ EmptyString ∨ Meta db !! key = None →
  ∃ w' db',
    PDFCache.getCache key w = (Resolved (val bytes), w') ∧ _db w' = Some db'
    ∧ Cache db' = Cache db
    ∧ Meta db' !! key = Some (meta_of bytes (clock w (ticks w)))
    ∧ (∀ k, k ≠ key → Meta db' !! k = Meta db !! k)
    ∧ ticks w' = S (ticks w)
    ∧ fetched w' = fetched w.
Proof.
  intros Hdb Hc Hkey. rewrite getCache_spec, Hdb, Hc.
  rewrite (forced_written_key key META _ db Hkey).
  eexists _, _. split; [reflexivity|]. split; [reflexivity|].
  cbn [withStore objectStore Cache Meta].
  split; [reflexivity|]. split; [apply lookup_insert_eq|].
  split; [intros k Hk; apply lookup_insert_ne; congruence|].
  split; reflexivity.
Qed.

Lemma getCache_refreshes_one_record_witness :
  let db := mkDatabase {[ "a" := [Byte.x01]; "b" := [Byte.x02] ]}
                       {[ "a" := meta_of [Byte.x01] 0; "b" := meta_of [Byte.x02] 0 ]} in
  let w := with_db (Some db) (tick (opened 1)) in
  ∃ w' db',
    PDFCache.getCache "a" w = (Resolved (val [Byte.x01]), w') ∧ _db w' = Some db'
    ∧ Cache db' = Cache db
    ∧ Meta db' !! "a" = Some (meta_of [Byte.x01] (clock w (ticks w)))
    ∧ (∀ k, k ≠ "a" → Meta db' !! k = Meta db !! k)
    ∧ ticks w' = S (ticks w)
    ∧ fetched w' = fetched w.
Proof.
  intros db w. apply (getCache_refreshes_one_record "a" [Byte.x01] w db).
  - reflexivity.
  - reflexivity.
  - left. discriminate.
Defined.

(** What a pass leaves under the key that [setCache] has just written. *)
Lemma written_then_pruned (budget : Z) (key : string) (bytes : list Byte.byte) (now : Z)
    (db : Database) :
  key ≠ EmptyString →
  (Cache (pruned budget (written key bytes now db)) !! key = Some bytes
   ∧ Meta (pruned budget (written key bytes now db)) !! key = Some (meta_of bytes now))
  ∨ (Cache (pruned budget (written key bytes now db)) !! key = None
     ∧ Meta (pruned budget (written key bytes now db)) !! key = None).
Proof.
  intros Hne. unfold pruned. rewrite Cache_evict_keys, Meta_evict_keys, !lookup_remove_keys.
  destruct (decide _) as [Hin|Hnin]; [right; split; reflexivity|left].
  rewrite (Cache_written _ _ _ _ Hne), (Meta_written _ _ _ _ Hne), !lookup_insert_eq.
  split; reflexivity.
Qed.

(** X15.  [setCache] never leaves other bytes than the ones it was
    given: on an opened cache, for a key other than the empty string, after
    [setCache (key, bytes)] either both stores hold the key, [Cache] with
    [bytes] and [Meta] with their length and the reading of the clock, and
    [getCache] answers [bytes]; or the entry was evicted at once, the key
    is in neither store and [getCache] answers [null]. *)
Theorem setCache_then_getCache (key : string) (bytes : list Byte.byte)
    (w : World) (db : Database) :
  key ≠ EmptyString →
  _db w = Some db →
  ∃ w' db',
    PDFCache.setCache key bytes w = (Resolved tt, w') ∧ _db w' = Some db'
    ∧ ((Cache db' !! key = Some bytes
        ∧ Meta db' !! key = Some (meta_of bytes (clock w (ticks w)))
        ∧ fst (PDFCache.getCache key w') = Resolved (val bytes))
       ∨ (Cache db' !! key = None ∧ Meta db' !! key = None
          ∧ fst (PDFCache.getCache key w') = Resolved null)).
Proof.
  intros Hne Hdb. rewrite (setCache_resolves _ _ _ _ Hdb).
  eexists _, _. split; [reflexivity|]. split; [reflexivity|].
  rewrite getCache_spec. cbn [_db with_db].
  destruct (written_then_pruned (PDFCache.MAX_BYTES w) key bytes (clock w (ticks w)) db Hne)
    as [[Hc Hm]|[Hc Hm]]; rewrite Hc, Hm; [left|right]; (split; [reflexivity|]);
    split; reflexivity.
Qed.

Lemma setCache_then_getCache_witness :
  let w := opened 1 in
  ∃ w' db',
    PDFCache.setCache "a" [Byte.x01] w = (Resolved tt, w') ∧ _db w' = Some db'
    ∧ ((Cache db' !! "a" = Some [Byte.x01]
        ∧ Meta db' !! "a" = Some (meta_of [Byte.x01] (clock w (ticks w)))
        ∧ fst (PDFCache.getCache "a" w') = Resolved (val [Byte.x01]))
       ∨ (Cache db' !! "a" = None ∧ Meta db' !! "a" = None
          ∧ fst (PDFCache.getCache "a" w') = Resolved null)).
Proof.
  intros w. apply (setCache_then_getCache "a" [Byte.x01] w (mkDatabase ∅ ∅)).
  - discriminate.
  - reflexivity.
Defined.

(** ** The dates of access *)

Lemma forced_META_lookup (key : string) (v : CacheMeta) (db : Database) (k : string)
    (m : CacheMeta) :
  Meta (forced key META v db) !! k = Some m → m = v ∨ Meta db !! k = Some m.
Proof.
  unfold forced, IDBHelper.add. cbn [withStore objectStore Meta].
  change (valueOf META) with CacheMeta.
  destruct (IDBHelper.truthy _).
  - rewrite lookup_delete_eq. destruct (decide (k = key)) as [->|Hne].
    + rewrite lookup_insert_eq. intros [= <-]. left. reflexivity.
    + rewrite lookup_insert_ne, lookup_delete_ne by congruence. intros Hm. right. exact Hm.
  - destruct (Meta db !! key) eqn:Hk; [intros Hm; right; exact Hm|].
    destruct (decide (k = key)) as [->|Hne].
    + rewrite lookup_insert_eq. intros [= <-]. left. reflexivity.
    + rewrite lookup_insert_ne by congruence. intros Hm. right. exact Hm.
Qed.

Lemma Meta_pruned_lookup (budget : Z) (db : Database) (k : string) (m : CacheMeta) :
  Meta (pruned budget db) !! k = Some m → Meta db !! k = Some m.
Proof.
  unfold pruned. rewrite Meta_evict_keys, lookup_remove_keys.
  destruct (decide _); [discriminate|]. intros H; exact H.
Qed.

Lemma stamped_getCache (key : string) (w : World) :
  stamped w →
  stamped (snd (PDFCache.getCache key w))
  ∧ clock (snd (PDFCache.getCache key w)) = clock w.
Proof.
  intros H. rewrite getCache_spec. destruct (_db w) as [db|] eqn:Hdb; [|split; [exact H|reflexivity]].
  destruct (Cache db !! key) as [bytes|]; (split; [|reflexivity]); simpl.
  - intros db' k m [= <-] Hm. simpl.
    apply forced_META_lookup in Hm as [->|Hm].
    + exists (ticks w). split; [lia|reflexivity].
    + destruct (H db k m Hdb Hm) as (n & Hn & Hd). exists n. split; [lia|exact Hd].
  - intros db' k m Hdb' Hm. simpl in Hdb'. rewrite Hdb in Hdb'. injection Hdb' as <-.
    destruct (H db k m Hdb Hm) as (n & Hn & Hd). exists n. simpl. split; [lia|exact Hd].
Qed.

Lemma stamped_setCache (key : string) (bytes : list Byte.byte) (w : World) :
  stamped w →
  stamped (snd (PDFCache.setCache key bytes w))
  ∧ clock (snd (PDFCache.setCache key bytes w)) = clock w.
Proof.
  intros H. destruct (_db w) as [db|] eqn:Hdb.
  - rewrite (setCache_resolves _ _ _ _ Hdb). split; [|reflexivity]. simpl.
    intros db' k m [= <-] Hm. simpl.
    apply Meta_pruned_lookup in Hm. unfold written in Hm.
    apply forced_META_lookup in Hm as [->|Hm].
    + exists (ticks w). split; [lia|reflexivity].
    + change (Meta (forced key CACHE bytes db)) with (Meta db) in Hm.
      destruct (H db k m Hdb Hm) as (n & Hn & Hd). exists n. split; [lia|exact Hd].
  - rewrite (setCache_not_initialized _ _ _ Hdb). split; [|reflexivity]. simpl.
    intros db' k m Hdb'. simpl in Hdb'. congruence.
Qed.

Lemma stamped_prune (w : World) :
  stamped w → stamped (snd (PDFCache.prune w)) ∧ clock (snd (PDFCache.prune w)) = clock w.
Proof.
  intros H. destruct (_db w) as [db|] eqn:Hdb.
  - rewrite (prune_spec _ _ Hdb). split; [|reflexivity]. simpl.
    intros db' k m [= <-] Hm. simpl. apply Meta_pruned_lookup in Hm.
    exact (H db k m Hdb Hm).
  - rewrite (prune_not_initialized _ Hdb). split; [exact H|reflexivity].
Qed.

Lemma stamped_note_fetch (key : string) (w : World) :
  stamped w → stamped (note_fetch key w).
Proof. intros H db k m Hdb Hm. exact (H db k m Hdb Hm). Qed.

Lemma stamped_preload (key : string) (w : World) :
  stamped w →
  stamped (snd (PDFCache.preload key w)) ∧ clock (snd (PDFCache.preload key w)) = clock w.
Proof.
  intros H. destruct (stamped_getCache key w H) as [Hg Hgc].
  destruct (cached key w) eqn:Hc.
  - rewrite (preload_hit _ _ Hc). split; assumption.
  - rewrite (preload_miss _ _ Hc). cbv zeta.
    pose proof (stamped_note_fetch key _ Hg) as H1.
    destruct (ok (network w key) && (0 <? Z.of_nat (length (arrayBuffer (network w key)))));
      [|split; [exact H1|exact Hgc]].
    destruct (stamped_setCache key (arrayBuffer (network w key)) _ H1) as [H2 H2c].
    simpl in H2c. rewrite Hgc in H2c.
    destruct (PDFCache.setCache key (arrayBuffer (network w key))
                (note_fetch key (snd (PDFCache.getCache key w)))) as [[[]|e|e] w'];
      split; assumption.
Qed.

Lemma stamped_serve (r : request) (w : World) :
  stamped w → stamped (serve r w) ∧ clock (serve r w) = clock w.
Proof.
  destruct r as [key|key|key bytes|key|]; simpl.
  - rewrite getMeta_spec. destruct (_db w) as [db|] eqn:Hdb; [|intros H; split; [exact H|reflexivity]].
    destruct (Meta db !! key); intros H; (split; [exact H|reflexivity]).
  - apply stamped_getCache.
  - apply stamped_setCache.
  - apply stamped_preload.
  - apply stamped_prune.
Qed.

Lemma stamped_serve_all (rs : list request) (w : World) :
  stamped w → stamped (serve_all rs w) ∧ clock (serve_all rs w) = clock w.
Proof.
  revert w; induction rs as [|r rs IH]; intros w H; [split; [exact H|reflexivity]|].
  destruct (stamped_serve r w H) as [H1 Hc1].
  destruct (IH (serve r w) H1) as [H2 Hc2].
  change (serve_all (r :: rs) w) with (serve_all rs (serve r w)).
  split; [exact H2|]. rewrite Hc2. exact Hc1.
Qed.

(** X16.  The dates in [Meta] are readings of the clock: in a cache that
    only [getMeta], [getCache], [setCache], [preload] and [prune] have worked
    on, after any sequence of these operations every recorded date is a
    reading that one of them took.  So with a clock that does not go back
    no recorded date lies after the next reading. *)
Theorem dates_are_past_readings (rs : list request) (w : World) (db' : Database)
    (key : string) (meta : CacheMeta) :
  stamped w →
  _db (serve_all rs w) = Some db' →
  Meta db' !! key = Some meta →
  (∃ n, (n < ticks (serve_all rs w))%nat ∧ dateAccessed meta = clock w n)
  ∧ ((∀ i j, (i ≤ j)%nat → clock w i ≤ clock w j) →
     dateAccessed meta ≤ clock w (ticks (serve_all rs w))).
Proof.
  intros H Hdb' Hm. destruct (stamped_serve_all rs w H) as [H' Hc].
  destruct (H' db' key meta Hdb' Hm) as (n & Hn & Hd). rewrite Hc in Hd.
  split; [eauto|]. intros Hmono. rewrite Hd. apply Hmono. lia.
Qed.

Lemma dates_are_past_readings_witness :
  let w := opened 1 in
  let rs := [req_setCache "a" [Byte.x01]; req_getCache "a"] in
  (∃ n, (n < ticks (serve_all rs w))%nat ∧ dateAccessed (meta_of [Byte.x01] 1) = clock w n)
  ∧ ((∀ i j, (i ≤ j)%nat → clock w i ≤ clock w j) →
     dateAccessed (meta_of [Byte.x01] 1) ≤ clock w (ticks (serve_all rs w))).
Proof.
  intros w rs.
  apply (dates_are_past_readings rs w (mkDatabase {[ "a" := [Byte.x01] ]}
                                         {[ "a" := meta_of [Byte.x01] 1 ]}) "a").
  - intros db k m [= <-] Hm. discriminate Hm.
  - vm_compute. reflexivity.
  - reflexivity.
Defined.

(** ** Entries that fit, and what [preload] caches *)

(** X17.  Caching an array that fits evicts nothing: on an opened cache,
    for a key other than the empty string, when the recorded sizes with the
    new record in place add up to less than [MAX_BYTES], [setCache] resolves
    and leaves both stores as they were but for the key, which holds the
    new bytes and their record. *)
Theorem setCache_with_room (key : string) (bytes : list Byte.byte) (w : World) (db : Database) :
  key ≠ EmptyString →
  _db w = Some db →
  totalSize (<[key := meta_of bytes (clock w (ticks w))]> (Meta db)) < PDFCache.MAX_BYTES w →
  ∃ w',
    PDFCache.setCache key bytes w = (Resolved tt, w')
    ∧ _db w' = Some (mkDatabase (<[key := bytes]> (Cache db))
                       (<[key := meta_of bytes (clock w (ticks w))]> (Meta db))).
Proof.
  intros Hne Hdb Hroom. rewrite (setCache_resolves _ _ _ _ Hdb).
  eexists. split; [reflexivity|]. cbn [_db with_db]. f_equal.
  rewrite pruned_below by (rewrite (Meta_written _ _ _ _ Hne); exact Hroom).
  destruct (written key bytes (clock w (ticks w)) db) as [c m] eqn:Hw.
  pose proof (Cache_written key bytes (clock w (ticks w)) db Hne) as H1.
  pose proof (Meta_written key bytes (clock w (ticks w)) db Hne) as H2.
  rewrite Hw in H1, H2. simpl in H1, H2. congruence.
Qed.

Lemma setCache_with_room_witness :
  let db := mkDatabase {[ "a" := [Byte.x01] ]} {[ "a" := meta_of [Byte.x01] 0 ]} in
  let w := with_db (Some db) (opened 1) in
  ∃ w',
    PDFCache.setCache "b" [Byte.x02] w = (Resolved tt, w')
    ∧ _db w' = Some (mkDatabase (<["b" := [Byte.x02]]> (Cache db))
                       (<["b" := meta_of [Byte.x02] (clock w (ticks w))]> (Meta db))).
Proof.
  intros db w. apply (setCache_with_room "b" [Byte.x02] w db).
  - discriminate.
  - reflexivity.
  - vm_compute. reflexivity.
Defined.

(** X18.  A [preload] that fetches caches what it fetched: on an opened
    cache, for a key other than the empty string with no usable bytes
    cached, when the response is ok and has bytes, [preload] resolves, and
    afterwards [Cache] holds the fetched bytes under the key, unless the
    entry was evicted at once and the key is in neither store. *)
Theorem preload_caches_what_it_fetched (key : string) (w : World) (db : Database) :
  key ≠ EmptyString →
  _db w = Some db →
  cached key w = false →
  ok (network w key) = true →
  arrayBuffer (network w key) ≠ [] →
  ∃ w' db',
    PDFCache.preload key w = (Resolved tt, w') ∧ _db w' = Some db'
    ∧ fetched w' = fetched w ++ [key]
    ∧ (Cache db' !! key = Some (arrayBuffer (network w key))
       ∨ (Cache db' !! key = None ∧ Meta db' !! key = None)).
Proof.
  intros Hne Hdb Hc Hok Hbytes. rewrite (preload_miss _ _ Hc). cbv zeta. rewrite Hok.
  assert (Hlen : (0 <? Z.of_nat (length (arrayBuffer (network w key)))) = true).
  { destruct (arrayBuffer (network w key)); [contradiction|reflexivity]. }
  rewrite Hlen. simpl andb.
  destruct (getCache_keeps_open key w db Hdb) as [db1 Hdb1].
  rewrite (setCache_resolves _ _ _ db1) by exact Hdb1.
  eexists _, _. split; [reflexivity|]. split; [reflexivity|].
  split; [simpl; apply (f_equal (λ l, l ++ [key])), getCache_fetched|].
  destruct (written_then_pruned
              (PDFCache.MAX_BYTES (note_fetch key (snd (PDFCache.getCache key w)))) key
              (arrayBuffer (network w key))
              (clock (note_fetch key (snd (PDFCache.getCache key w)))
                 (ticks (note_fetch key (snd (PDFCache.getCache key w))))) db1 Hne)
    as [[Hcache _]|[Hcache Hmeta]]; [left|right]; auto.
Qed.

Lemma preload_caches_what_it_fetched_witness :
  let w := with_network (λ _, mkResponse true [Byte.x01]) (opened 1) in
  ∃ w' db',
    PDFCache.preload "a" w = (Resolved tt, w') ∧ _db w' = Some db'
    ∧ fetched w' = fetched w ++ ["a"]
    ∧ (Cache db' !! "a" = Some (arrayBuffer (network w "a"))
       ∨ (Cache db' !! "a" = None ∧ Meta db' !! "a" = None)).
Proof.
  intros w. apply (preload_caches_what_it_fetched "a" w (mkDatabase ∅ ∅)).
  - discriminate.
  - reflexivity.
  - reflexivity.
  - reflexivity.
  - discriminate.
Defined.
